(** * enhanced_csi: the CSI video services of the Jetson camera application

    A shallow embedding of [enhaced-video-services/enhanced_csi.py]:
    the bounded frame queue ([collections.deque] with [maxlen]), the
    construction of [JetsonVideoStream], the life cycle of
    [_BaseVideoStream] ([start], the capture loop [_update], [read],
    [stop]) and the frame-rate statistics ([update_fps_stats],
    [start_counting_fps], [release_fps_stats]).

    Python objects are records, attribute assignment is a record update,
    an exception is a value of [exn].  [start] runs before any thread
    exists and is a function.  After it, the capture thread, the
    consumer and the repeat timers are interleaved by an explicit
    schedule: a statement of [_update], [read] or [stop] is one step of
    the thread that runs it; a timer tick and the two statistics methods
    are one step each.  A stream object is started once, which is how
    the context manager uses it. *)

From Stdlib Require Import ZArith Lia Bool Ascii String.
From stdpp Require Import base option list strings pretty relations.

Local Open Scope Z_scope.

(** ** Exceptions *)

(** The exceptions the module raises or lets through.  [CameraFailedToStart]
    keeps its three constructor arguments ([cmd], [backend], [append]). *)
Inductive exn : Type :=
| CameraFailedToStart (cmd : string) (backend : Z) (append : string)
| CameraConnectionLost
| ValueError (msg : string)
| AttributeError (msg : string)
| IndexError (msg : string).

(** ** collections.deque with a maximum length *)

Module Deque.

(** The leftmost element is the head of [items]. *)
Record deque (A : Type) : Type := Build {
  items : list A;
  maxlen : nat
}.
Arguments Build {A} _ _.
Arguments items {A} _.
Arguments maxlen {A} _.

(** [deque(maxlen=n)] *)
Definition new {A} (n : nat) : deque A := Build [] n.

(** [len(d)] *)
Definition len {A} (d : deque A) : nat := length (items d).

(** [d.appendleft(x)]: the element enters on the left; a deque that is
    already full gives up elements on the opposite (right) end. *)
Definition appendleft {A} (x : A) (d : deque A) : deque A :=
  Build (take (maxlen d) (x :: items d)) (maxlen d).

(** [d.pop()]: removes and returns the rightmost element; [IndexError]
    on an empty deque. *)
Definition pop {A} (d : deque A) : exn + (A * deque A) :=
  match reverse (items d) with
  | [] => inl (IndexError "pop from an empty deque")
  | x :: r => inr (x, Build (reverse r) (maxlen d))
  end.

(** Operations of the two users of the queue. *)
Inductive op (A : Type) : Type :=
| Push (x : A)
| Pop.
Arguments Push {A} _.
Arguments Pop {A}.

(** A pop on an empty deque raises in the caller and leaves it as it is. *)
Definition apply {A} (d : deque A) (o : op A) : deque A :=
  match o with
  | Push x => appendleft x d
  | Pop => match pop d with inr (_, d') => d' | inl _ => d end
  end.

Definition run {A} (os : list (op A)) (d : deque A) : deque A :=
  foldl apply d os.

(** pushes in list order, first element first *)
Definition pushes {A} (xs : list A) (d : deque A) : deque A :=
  foldl (fun d x => appendleft x d) d xs.

End Deque.

(** [self._queue_depth = 2] *)
Definition _queue_depth : nat := 2.

(** ** Enumerations and the values a caller can pass for them *)

Inductive FrameRotation : Type := ROTATE_NONE | ROTATE_90 | ROTATE_180.

Inductive JetsonCameraMode : Type :=
| IMX219_3264x2468_21_0
| IMX219_3264x1848_28_1
| IMX219_1920x1080_30_2
| IMX219_1640x1232_30_3
| IMX477_4032x3040_30_0
| IMX477_1920x1080_60_1
| IMX477_2560x1440_40_3.

Definition FrameRotation_name (r : FrameRotation) : string :=
  match r with
  | ROTATE_NONE => "ROTATE_NONE"
  | ROTATE_90 => "ROTATE_90"
  | ROTATE_180 => "ROTATE_180"
  end.

Definition JetsonCameraMode_name (m : JetsonCameraMode) : string :=
  match m with
  | IMX219_3264x2468_21_0 => "IMX219_3264x2468_21_0"
  | IMX219_3264x1848_28_1 => "IMX219_3264x1848_28_1"
  | IMX219_1920x1080_30_2 => "IMX219_1920x1080_30_2"
  | IMX219_1640x1232_30_3 => "IMX219_1640x1232_30_3"
  | IMX477_4032x3040_30_0 => "IMX477_4032x3040_30_0"
  | IMX477_1920x1080_60_1 => "IMX477_1920x1080_60_1"
  | IMX477_2560x1440_40_3 => "IMX477_2560x1440_40_3"
  end.

#[global] Instance FrameRotation_eq_dec : EqDecision FrameRotation.
Proof. solve_decision. Defined.

#[global] Instance JetsonCameraMode_eq_dec : EqDecision JetsonCameraMode.
Proof. solve_decision. Defined.

(** Python is untyped: [rotation] and [camera_mode] receive whatever the
    caller passes.  The values told apart here are the members of the two
    enumerations, integers, strings and [None]. *)
Inductive pyval : Type :=
| PyRotation (r : FrameRotation)
| PyMode (m : JetsonCameraMode)
| PyInt (z : Z)
| PyStr (s : string)
| PyNone.

(** [a == b].  Both enumerations derive from [Enum], not [IntEnum]: a
    member is equal to itself only, and never to an integer. *)
Definition py_eq (a b : pyval) : bool :=
  match a, b with
  | PyRotation r, PyRotation r' => bool_decide (r = r')
  | PyMode m, PyMode m' => bool_decide (m = m')
  | PyInt z, PyInt z' => Z.eqb z z'
  | PyStr s, PyStr s' => String.eqb s s'
  | PyNone, PyNone => true
  | _, _ => false
  end.

(** [str(v)], as ['{}'.format(v)] prints it *)
Definition py_str (v : pyval) : string :=
  match v with
  | PyRotation r => "FrameRotation." +:+ FrameRotation_name r
  | PyMode m => "JetsonCameraMode." +:+ JetsonCameraMode_name m
  | PyInt z => pretty z
  | PyStr s => s
  | PyNone => "None"
  end.

(** [cv2.CAP_GSTREAMER] *)
Definition CAP_GSTREAMER : Z := 1800.

(** The values [__init__] settles on before it calls the base class:
    the attributes of the object and the local [flip]. *)
Record CameraProfile : Type := {
  _sensor_id : Z;
  _rotation : pyval;
  _sensor_mode : pyval;
  _display_width : Z;
  _display_height : Z;
  flip : Z;
  _mode : Z;
  _capture_width : Z;
  _capture_height : Z;
  _framerate : Z
}.

(** The first [if]/[elif] chain of [JetsonVideoStream.__init__]. *)
Definition resolve_flip (rotation : pyval) : exn + Z :=
  if py_eq rotation (PyRotation ROTATE_NONE) then inr 0
  else if py_eq rotation (PyRotation ROTATE_90) then inr 1
  else if py_eq rotation (PyRotation ROTATE_180) then inr 2
  else inl (ValueError ("Invalid input for rotation: " +:+ py_str rotation)).

(** The second chain: [(_mode, _capture_width, _capture_height, _framerate)]. *)
Definition resolve_mode (camera_mode : pyval) : exn + (Z * Z * Z * Z) :=
  if py_eq camera_mode (PyMode IMX219_3264x2468_21_0) then inr (0, 3264, 2468, 21)
  else if py_eq camera_mode (PyMode IMX219_3264x1848_28_1) then inr (1, 3264, 1848, 28)
  else if py_eq camera_mode (PyMode IMX219_1920x1080_30_2) then inr (2, 1920, 1080, 30)
  else if py_eq camera_mode (PyMode IMX219_1640x1232_30_3) then inr (3, 1640, 1232, 30)
  else if py_eq camera_mode (PyMode IMX477_4032x3040_30_0) then inr (0, 4032, 3040, 30)
  else if py_eq camera_mode (PyMode IMX477_1920x1080_60_1) then inr (1, 1920, 1080, 60)
  else if py_eq camera_mode (PyMode IMX477_2560x1440_40_3) then inr (3, 2560, 1440, 40)
  else inl (ValueError ("Invalid input for camera_mode: " +:+ py_str camera_mode)).

(** The rotation is checked first, so its error wins when both are wrong. *)
Definition resolve_profile (cam : Z) (rotation camera_mode : pyval)
    (display_width display_height : Z) : exn + CameraProfile :=
  match resolve_flip rotation with
  | inl e => inl e
  | inr fl =>
    match resolve_mode camera_mode with
    | inl e => inl e
    | inr (mode, w, h, fr) =>
      inr {| _sensor_id := cam; _rotation := rotation;
             _sensor_mode := camera_mode;
             _display_width := display_width;
             _display_height := display_height;
             flip := fl; _mode := mode; _capture_width := w;
             _capture_height := h; _framerate := fr |}
    end
  end.

(** The GStreamer pipeline, [cmd], with every [%d] filled in. *)
Definition pipeline (p : CameraProfile) : string :=
  "nvarguscamerasrc sensor-id=" +:+ pretty (_sensor_id p) +:+
  " sensor-mode=" +:+ pretty (_mode p) +:+ " !" +:+
  "video/x-raw(memory:NVMM), " +:+
  "width=(int)" +:+ pretty (_capture_width p) +:+
  ", height=(int)" +:+ pretty (_capture_height p) +:+ ", " +:+
  "format=(string)NV12, framerate=(fraction)" +:+
  pretty (_framerate p) +:+ "/1 ! " +:+
  "nvvidconv flip-method=" +:+ pretty (flip p) +:+ " ! " +:+
  "video/x-raw, width=(int)" +:+ pretty (_display_width p) +:+
  ", height=(int)" +:+ pretty (_display_height p) +:+
  ",format=(string)BGRx ! " +:+
  "videoconvert ! " +:+
  "video/x-raw, format=(string)BGR ! appsink " +:+
  "wait-on-eos=false drop=true max-buffers=60".

(** *** What the documentation says about a sensor mode

    The docstring of [JetsonCameraMode] gives the reading of a member's
    name: sensor, input width and height, framerate, sensor mode.  The
    functions below read a name that way; they follow the documentation,
    not the [elif] chain. *)

Fixpoint split_go (sep : ascii) (cur : string) (s : string) : list string :=
  match s with
  | EmptyString => [String.rev cur]
  | String c s' =>
    if Ascii.eqb c sep then String.rev cur :: split_go sep EmptyString s'
    else split_go sep (String c cur) s'
  end.

Definition split (sep : ascii) (s : string) : list string :=
  split_go sep EmptyString s.

Definition digit (c : ascii) : option Z :=
  let n := Z.of_nat (nat_of_ascii c) in
  if (48 <=? n) && (n <=? 57) then Some (n - 48) else None.

Fixpoint decimal_go (acc : Z) (s : string) : option Z :=
  match s with
  | EmptyString => Some acc
  | String c s' =>
    match digit c with
    | Some d => decimal_go (10 * acc + d) s'
    | None => None
    end
  end.

Definition decimal (s : string) : option Z :=
  match s with
  | EmptyString => None
  | _ => decimal_go 0 s
  end.

(** [(mode index, width, height, framerate)] as the name documents them *)
Definition documented_mode (m : JetsonCameraMode) : option (Z * Z * Z * Z) :=
  match split "_" (JetsonCameraMode_name m) with
  | [_; wh; fr; idx] =>
    match split "x" wh with
    | [w; h] =>
      match decimal idx, decimal w, decimal h, decimal fr with
      | Some i, Some w', Some h', Some f => Some (i, w', h', f)
      | _, _, _, _ => None
      end
    | _ => None
    end
  | _ => None
  end.

(** The flip method of [nvvidconv] for a rotation: 0 is the identity,
    1 a quarter turn, 2 a half turn. *)
Definition documented_flip (r : FrameRotation) : Z :=
  match r with
  | ROTATE_NONE => 0
  | ROTATE_90 => 1
  | ROTATE_180 => 2
  end.

(** ** cv2.VideoCapture, the external collaborator *)

Section Stream.

(** An image buffer; the module never looks inside one. *)
Context {Frame : Type}.

(** A capture device as the module sees it: whether [isOpened()], what
    the n-th [read()] yields as [(grabbed, frame)], how many reads were
    issued, and whether [release()] was called. *)
Record VideoCapture : Type := {
  opened : bool;
  frames : nat -> bool * option Frame;
  reads : nat;
  released : bool
}.

(** [cv2.VideoCapture(cmd, backend)] raises [RuntimeError], or returns
    an object; the code also tests the result against [None]. *)
Inductive open_outcome : Type :=
| OpenRaises
| OpenNone
| OpenReturns (c : VideoCapture).

(** [stream.read()].  A capture that is not open, or was released,
    yields [(False, None)]. *)
Definition VideoCapture_read (c : VideoCapture)
    : (bool * option Frame) * VideoCapture :=
  (if opened c && negb (released c) then frames c (reads c)
   else (false, None),
   {| opened := opened c; frames := frames c;
      reads := S (reads c); released := released c |}).

(** [stream.release()] *)
Definition VideoCapture_release (c : VideoCapture) : VideoCapture :=
  {| opened := false; frames := frames c;
     reads := reads c; released := true |}.

(** [grabbed is False or frame is None] decides failure; otherwise the
    frame is there. *)
Definition grabbed_frame (r : bool * option Frame) : option Frame :=
  match r with
  | (false, _) => None
  | (true, o) => o
  end.

(** A device that is open and yields the frames of [fs], one per
    read, and fails from then on (the camera is lost). *)
Definition feed (fs : list Frame) : VideoCapture :=
  {| opened := true;
     frames := fun n => match fs !! n with
                        | Some f => (true, Some f)
                        | None => (false, None)
                        end;
     reads := 0; released := false |}.

(** ** Threads *)

(** Where the capture thread stands in [_update]: at the test of
    [_stopped], at [self._stream.read()], at [self._update_failure.set()],
    at [self.frames_read += 1], at [appendleft(frame)], or returned. *)
Inductive update_pc : Type :=
| UStopped
| URead
| UFailure
| UCount (frame : Frame)
| UAppend (frame : Frame)
| UReturned.

(** Where the consumer stands: outside any method, in [read] (test of
    the failure event, test of [len], [pop]) or in [stop] (assignment of
    [_stopped], [join], [release]). *)
Inductive consumer_pc : Type :=
| Idle
| RFailure
| RLen
| RPop
| SStopped
| SJoin
| SRelease.

(** A [RepeatTimer]: [start()] was called; [cancel()] set [finished].
    Its function is always [update_fps_stats], its interval real time. *)
Record RepeatTimer : Type := {
  started : bool;
  finished : bool
}.

(** The history of a stream: the device was read, the device was
    released, a call of [read()] returned a frame, a call of the consumer
    ended in an exception. *)
Inductive event : Type :=
| EvRead
| EvRelease
| EvReturn (frame : Frame)
| EvRaise (e : exn).

(** ** The stream object *)

(** The attributes [_BaseVideoStream.__init__] creates, and
    [_update_failure], which exists only once [start] has created it.
    [_thread] carries the state of the thread it names. *)
Record BaseVideoStream : Type := {
  _cmd : string;
  _backend : Z;
  fps_timer : option nat;
  _running : bool;
  frames_read : Z;
  frames_displayed : Z;
  last_frames_read : Z;
  last_frames_displayed : Z;
  _stream : option VideoCapture;
  _thread : option update_pc;
  _frame_queue : Deque.deque Frame;
  _stopped : bool;
  _update_failure : option bool
}.

(** [_BaseVideoStream.__init__(cmd, backend)] *)
Definition BaseVideoStream__init__ (cmd : string) (backend : Z)
    : BaseVideoStream :=
  {| _cmd := cmd; _backend := backend; fps_timer := None;
     _running := false; frames_read := 0; frames_displayed := 0;
     last_frames_read := 0; last_frames_displayed := 0;
     _stream := None; _thread := None;
     _frame_queue := Deque.new _queue_depth;
     _stopped := false; _update_failure := None |}.

(** [JetsonVideoStream.__init__]: resolve the profile, build the
    pipeline, call the base class with the GStreamer backend. *)
Definition JetsonVideoStream__init__ (cam : Z) (rotation camera_mode : pyval)
    (display_width display_height : Z)
    : exn + (CameraProfile * BaseVideoStream) :=
  match resolve_profile cam rotation camera_mode
          display_width display_height with
  | inl e => inl e
  | inr p => inr (p, BaseVideoStream__init__ (pipeline p) CAP_GSTREAMER)
  end.

(** Attribute assignments. *)
Definition set_fps_timer (v : option nat) (s : BaseVideoStream) :=
  {| _cmd := _cmd s; _backend := _backend s; fps_timer := v;
     _running := _running s; frames_read := frames_read s;
     frames_displayed := frames_displayed s;
     last_frames_read := last_frames_read s;
     last_frames_displayed := last_frames_displayed s;
     _stream := _stream s; _thread := _thread s;
     _frame_queue := _frame_queue s; _stopped := _stopped s;
     _update_failure := _update_failure s |}.

Definition set_frames_read (v : Z) (s : BaseVideoStream) :=
  {| _cmd := _cmd s; _backend := _backend s; fps_timer := fps_timer s;
     _running := _running s; frames_read := v;
     frames_displayed := frames_displayed s;
     last_frames_read := last_frames_read s;
     last_frames_displayed := last_frames_displayed s;
     _stream := _stream s; _thread := _thread s;
     _frame_queue := _frame_queue s; _stopped := _stopped s;
     _update_failure := _update_failure s |}.

Definition set_frames_displayed (v : Z) (s : BaseVideoStream) :=
  {| _cmd := _cmd s; _backend := _backend s; fps_timer := fps_timer s;
     _running := _running s; frames_read := frames_read s;
     frames_displayed := v;
     last_frames_read := last_frames_read s;
     last_frames_displayed := last_frames_displayed s;
     _stream := _stream s; _thread := _thread s;
     _frame_queue := _frame_queue s; _stopped := _stopped s;
     _update_failure := _update_failure s |}.

Definition set_last_frames_read (v : Z) (s : BaseVideoStream) :=
  {| _cmd := _cmd s; _backend := _backend s; fps_timer := fps_timer s;
     _running := _running s; frames_read := frames_read s;
     frames_displayed := frames_displayed s;
     last_frames_read := v;
     last_frames_displayed := last_frames_displayed s;
     _stream := _stream s; _thread := _thread s;
     _frame_queue := _frame_queue s; _stopped := _stopped s;
     _update_failure := _update_failure s |}.

Definition set_last_frames_displayed (v : Z) (s : BaseVideoStream) :=
  {| _cmd := _cmd s; _backend := _backend s; fps_timer := fps_timer s;
     _running := _running s; frames_read := frames_read s;
     frames_displayed := frames_displayed s;
     last_frames_read := last_frames_read s;
     last_frames_displayed := v;
     _stream := _stream s; _thread := _thread s;
     _frame_queue := _frame_queue s; _stopped := _stopped s;
     _update_failure := _update_failure s |}.

Definition set_stream (v : option VideoCapture) (s : BaseVideoStream) :=
  {| _cmd := _cmd s; _backend := _backend s; fps_timer := fps_timer s;
     _running := _running s; frames_read := frames_read s;
     frames_displayed := frames_displayed s;
     last_frames_read := last_frames_read s;
     last_frames_displayed := last_frames_displayed s;
     _stream := v; _thread := _thread s;
     _frame_queue := _frame_queue s; _stopped := _stopped s;
     _update_failure := _update_failure s |}.

Definition set_thread (v : option update_pc) (s : BaseVideoStream) :=
  {| _cmd := _cmd s; _backend := _backend s; fps_timer := fps_timer s;
     _running := _running s; frames_read := frames_read s;
     frames_displayed := frames_displayed s;
     last_frames_read := last_frames_read s;
     last_frames_displayed := last_frames_displayed s;
     _stream := _stream s; _thread := v;
     _frame_queue := _frame_queue s; _stopped := _stopped s;
     _update_failure := _update_failure s |}.

Definition set_frame_queue (v : Deque.deque Frame) (s : BaseVideoStream) :=
  {| _cmd := _cmd s; _backend := _backend s; fps_timer := fps_timer s;
     _running := _running s; frames_read := frames_read s;
     frames_displayed := frames_displayed s;
     last_frames_read := last_frames_read s;
     last_frames_displayed := last_frames_displayed s;
     _stream := _stream s; _thread := _thread s;
     _frame_queue := v; _stopped := _stopped s;
     _update_failure := _update_failure s |}.

Definition set_stopped (v : bool) (s : BaseVideoStream) :=
  {| _cmd := _cmd s; _backend := _backend s; fps_timer := fps_timer s;
     _running := _running s; frames_read := frames_read s;
     frames_displayed := frames_displayed s;
     last_frames_read := last_frames_read s;
     last_frames_displayed := last_frames_displayed s;
     _stream := _stream s; _thread := _thread s;
     _frame_queue := _frame_queue s; _stopped := v;
     _update_failure := _update_failure s |}.

Definition set_update_failure (v : option bool) (s : BaseVideoStream) :=
  {| _cmd := _cmd s; _backend := _backend s; fps_timer := fps_timer s;
     _running := _running s; frames_read := frames_read s;
     frames_displayed := frames_displayed s;
     last_frames_read := last_frames_read s;
     last_frames_displayed := last_frames_displayed s;
     _stream := _stream s; _thread := _thread s;
     _frame_queue := _frame_queue s; _stopped := _stopped s;
     _update_failure := v |}.

(** ** The statistics *)

(** [update_fps_stats]: four assignments, in the order of the source. *)
Definition update_fps_stats (s : BaseVideoStream) : BaseVideoStream :=
  let s1 := set_last_frames_read (frames_read s) s in
  let s2 := set_last_frames_displayed (frames_displayed s1) s1 in
  let s3 := set_frames_read 0 s2 in
  set_frames_displayed 0 s3.

(** [self.frames_read += 1], in [_update] *)
Definition count_read (s : BaseVideoStream) : BaseVideoStream :=
  set_frames_read (frames_read s + 1) s.

(** [video_stream.frames_displayed += 1], in the application's loop *)
Definition count_displayed (s : BaseVideoStream) : BaseVideoStream :=
  set_frames_displayed (frames_displayed s + 1) s.

(** The two writers of the live counters. *)
Inductive counter_event : Type := FrameRead | FrameDisplayed.

Definition count (s : BaseVideoStream) (e : counter_event) :=
  match e with
  | FrameRead => count_read s
  | FrameDisplayed => count_displayed s
  end.

Definition same_counter (e e' : counter_event) : bool :=
  match e, e' with
  | FrameRead, FrameRead => true
  | FrameDisplayed, FrameDisplayed => true
  | _, _ => false
  end.

Fixpoint occurrences (e : counter_event) (es : list counter_event) : Z :=
  match es with
  | [] => 0
  | e' :: es' =>
    (if same_counter e e' then 1 else 0) + occurrences e es'
  end.

(** ** The world: the object, its timers, the consumer, the history *)

Record world : Type := {
  self : BaseVideoStream;
  timers : list RepeatTimer;
  consumer : consumer_pc;
  trace : list event
}.

(** A newly constructed stream, nothing started. *)
Definition new_world (cmd : string) (backend : Z) : world :=
  {| self := BaseVideoStream__init__ cmd backend; timers := [];
     consumer := Idle; trace := [] |}.

Definition with_self (s : BaseVideoStream) (w : world) : world :=
  {| self := s; timers := timers w; consumer := consumer w;
     trace := trace w |}.

Definition with_timers (ts : list RepeatTimer) (w : world) : world :=
  {| self := self w; timers := ts; consumer := consumer w;
     trace := trace w |}.

Definition with_consumer (pc : consumer_pc) (w : world) : world :=
  {| self := self w; timers := timers w; consumer := pc;
     trace := trace w |}.

(** the newest event is the head of the trace *)
Definition emit (e : event) (w : world) : world :=
  {| self := self w; timers := timers w; consumer := consumer w;
     trace := e :: trace w |}.

(** [start_counting_fps]: a new timer object is created, assigned to
    [fps_timer] and started; the object named before, if any, is no
    longer referenced and keeps its state. *)
Definition start_counting_fps (w : world) : world :=
  let i := length (timers w) in
  with_self (set_fps_timer (Some i) (self w))
    (with_timers (timers w ++ [{| started := true; finished := false |}]) w).

(** [cancel()]: the timer's [finished] event is set *)
Definition cancel (t : RepeatTimer) : RepeatTimer :=
  {| started := started t; finished := true |}.

(** [release_fps_stats]: [cancel()] then [join()] on [self.fps_timer];
    on [None] the attribute access raises.  A tick is one step, so
    none is in flight and [join()] has nothing to wait for. *)
Definition release_fps_stats (w : world) : exn + world :=
  match fps_timer (self w) with
  | None =>
    inl (AttributeError "'NoneType' object has no attribute 'cancel'")
  | Some i => inr (with_timers (alter cancel i (timers w)) w)
  end.

(** A timer runs its function while it is started and not finished. *)
Definition ticking (t : RepeatTimer) : bool :=
  started t && negb (finished t).

(** ** start *)

(** [start()], run by the consumer before any thread exists.  The
    result is the exception raised, if any, and the world left behind. *)
Definition start (env : open_outcome) (w : world) : option exn * world :=
  let s := self w in
  match env with
  | OpenRaises => (Some (CameraFailedToStart (_cmd s) (_backend s) ""), w)
  | OpenNone =>
    (Some (CameraFailedToStart (_cmd s) (_backend s) "Stream not open."),
     with_self (set_stream None s) w)
  | OpenReturns c =>
    let w1 := with_self (set_stream (Some c) s) w in
    if negb (opened c) then
      (Some (CameraFailedToStart (_cmd s) (_backend s) "Stream not open."),
       w1)
    else
      let '(r, c') := VideoCapture_read c in
      let w2 := emit EvRead (with_self (set_stream (Some c') s) w) in
      match grabbed_frame r with
      | None =>
        (Some (CameraFailedToStart (_cmd s) (_backend s)
                 "Failed to grab frame"), w2)
      | Some _ =>
        (None,
         with_self
           (set_thread (Some UStopped)
              (set_update_failure (Some false) (self w2))) w2)
      end
  end.

(** ** One step of each thread *)

(** The capture thread, one statement of [_update].  An attribute that
    is missing ([_stream] still [None], no [_update_failure]) raises in
    the thread and ends it; [start] excludes both. *)
Definition capture_step (pc : update_pc) (w : world) : option world :=
  let s := self w in
  match pc with
  | UStopped =>
    Some (with_self
            (set_thread (Some (if _stopped s then UReturned else URead)) s) w)
  | URead =>
    match _stream s with
    | None => Some (with_self (set_thread (Some UReturned) s) w)
    | Some c =>
      let '(r, c') := VideoCapture_read c in
      let s1 := set_stream (Some c') s in
      let next := match grabbed_frame r with
                  | None => UFailure
                  | Some f => UCount f
                  end in
      Some (emit EvRead (with_self (set_thread (Some next) s1) w))
    end
  | UFailure =>
    match _update_failure s with
    | None => Some (with_self (set_thread (Some UReturned) s) w)
    | Some _ =>
      Some (with_self
              (set_thread (Some UReturned)
                 (set_update_failure (Some true) s)) w)
    end
  | UCount f =>
    Some (with_self (set_thread (Some (UAppend f)) (count_read s)) w)
  | UAppend f =>
    Some (with_self
            (set_thread (Some UStopped)
               (set_frame_queue (Deque.appendleft f (_frame_queue s)) s)) w)
  | UReturned => None
  end.

(** raising ends the method: the consumer is outside again *)
Definition raise (e : exn) (w : world) : world :=
  with_consumer Idle (emit (EvRaise e) w).

(** The consumer, one statement of [read] or [stop]. *)
Definition consumer_step (w : world) : option world :=
  let s := self w in
  match consumer w with
  | Idle => None
  | RFailure =>
    match _update_failure s with
    | None =>
      Some (raise (AttributeError
        "'JetsonVideoStream' object has no attribute '_update_failure'") w)
    | Some true => Some (raise CameraConnectionLost w)
    | Some false => Some (with_consumer RLen w)
    end
  | RLen =>
    Some (with_consumer
            (if (0 <? Deque.len (_frame_queue s))%nat then RPop
             else RFailure) w)
  | RPop =>
    match Deque.pop (_frame_queue s) with
    | inl e => Some (raise e w)
    | inr (f, q) =>
      Some (with_consumer Idle
              (emit (EvReturn f) (with_self (set_frame_queue q s) w)))
    end
  | SStopped => Some (with_consumer SJoin (with_self (set_stopped true s) w))
  | SJoin =>
    match _thread s with
    | None => Some (with_consumer SRelease w)
    | Some UReturned => Some (with_consumer SRelease w)
    | Some _ => None
    end
  | SRelease =>
    match _stream s with
    | None =>
      Some (raise (AttributeError
        "'NoneType' object has no attribute 'release'") w)
    | Some c =>
      Some (with_consumer Idle
              (emit EvRelease
                 (with_self (set_stream (Some (VideoCapture_release c)) s) w)))
    end
  end.

(** What the scheduler can pick.  The calls are the consumer's, and
    need it to be outside any method; [Consumer] and [Capture] run the
    next statement of the consumer and of the capture thread; [Tick i]
    fires timer [i]. *)
Inductive action : Type :=
| CallRead
| CallStop
| CallStartCountingFps
| CallReleaseFpsStats
| Displayed
| Consumer
| Capture
| Tick (i : nat).

Definition when_idle (w : world) (r : world) : option world :=
  match consumer w with
  | Idle => Some r
  | _ => None
  end.

(** [None]: the action is not enabled (a blocked [join], a thread that
    returned, a call while another method runs). *)
Definition step (a : action) (w : world) : option world :=
  match a with
  | CallRead => when_idle w (with_consumer RFailure w)
  | CallStop => when_idle w (with_consumer SStopped w)
  | CallStartCountingFps => when_idle w (start_counting_fps w)
  | CallReleaseFpsStats =>
    when_idle w (match release_fps_stats w with
                 | inl e => raise e w
                 | inr w' => w'
                 end)
  | Displayed => when_idle w (with_self (count_displayed (self w)) w)
  | Consumer => consumer_step w
  | Capture =>
    match _thread (self w) with
    | None => None
    | Some pc => capture_step pc w
    end
  | Tick i =>
    match timers w !! i with
    | Some t =>
      if ticking t then Some (with_self (update_fps_stats (self w)) w)
      else None
    | None => None
    end
  end.

(** A schedule, run from the left; an action that is not enabled is
    skipped. *)
Definition exec (sched : list action) (w : world) : world :=
  foldl (fun w a => default w (step a w)) w sched.

(** one turn of the capture loop is four statements *)
Definition turns (n : nat) : list action := replicate (4 * n) Capture.

(** a call of [read] that finds a frame: the call and three statements *)
Definition read_call : list action := [CallRead; Consumer; Consumer; Consumer].

Definition world_step (w w' : world) : Prop :=
  exists a, step a w = Some w'.

(** every world an interleaving can lead to *)
Definition reachable (w w' : world) : Prop := rtc world_step w w'.

(** The device of the world, if the stream has one. *)
Definition device_reads (w : world) : nat :=
  match _stream (self w) with
  | Some c => reads c
  | None => 0%nat
  end.

Definition device_released (w : world) : bool :=
  match _stream (self w) with
  | Some c => released c
  | None => false
  end.

Definition is_release (e : event) : bool :=
  match e with EvRelease => true | _ => false end.

Definition is_read (e : event) : bool :=
  match e with EvRead => true | _ => false end.

(** the frames [read()] handed to the consumer, the newest first *)
Fixpoint returned (tr : list event) : list Frame :=
  match tr with
  | [] => []
  | EvReturn f :: tr' => f :: returned tr'
  | _ :: tr' => returned tr'
  end.

(** No read of the device is newer than a release: going from the
    newest event back, a read has no release behind it. *)
Fixpoint no_read_after_release (tr : list event) : bool :=
  match tr with
  | [] => true
  | e :: tr' =>
    (if is_read e then negb (existsb is_release tr') else true)
    && no_read_after_release tr'
  end.

End Stream.

Arguments VideoCapture : clear implicits.
Arguments open_outcome : clear implicits.
Arguments update_pc : clear implicits.
Arguments event : clear implicits.
Arguments BaseVideoStream : clear implicits.
Arguments world : clear implicits.
Arguments action : clear implicits.

(** ** Invariants of the interleaved threads *)

Section Invariants.
Context {Frame : Type}.
Implicit Types (w : world Frame) (c : VideoCapture Frame).

(** What it means for a call to be reported to the caller: the call ends
    in an exception. *)
Definition reported (a : action) w : Prop :=
  exists e w', step a w = Some w' /\ trace w' = EvRaise e :: trace w.

(** The queue keeps the depth it was created with and stays within it. *)
Definition queue_inv w : Prop :=
  Deque.maxlen (_frame_queue (self w)) = _queue_depth
  /\ (Deque.len (_frame_queue (self w)) <= _queue_depth)%nat.

(** The capture loop has returned after a failure, [n] reads into the
    device. *)
Definition lost (n : nat) w : Prop :=
  _thread (self w) = Some UReturned
  /\ _update_failure (self w) = Some true
  /\ device_reads w = n.

(** The failure event is set and the consumer is not past the test of
    it; [r] are the frames [read()] has returned so far. *)
Definition seen (r : list Frame) w : Prop :=
  _update_failure (self w) = Some true
  /\ consumer w <> RLen /\ consumer w <> RPop
  /\ returned (trace w) = r.

(** the capture thread has returned and the stop flag is set *)
Definition joined w : Prop :=
  _thread (self w) = Some UReturned /\ _stopped (self w) = true.

(** What holds of a started stream at every moment: the thread object
    exists; [stop] sets the flag before it joins, and has joined
    before it releases; a released device belongs to a joined thread;
    a release in the history means a released device; and no read
    follows a release. *)
Definition release_inv w : Prop :=
  is_Some (_thread (self w))
  /\ (consumer w = SJoin -> _stopped (self w) = true)
  /\ (consumer w = SRelease -> joined w)
  /\ (device_released w = true -> joined w)
  /\ (existsb is_release (trace w) = true -> device_released w = true)
  /\ no_read_after_release (trace w) = true.

(** [f] is what a read of [c] yielded, later than read [n0] and before
    read [n]. *)
Definition from_loop c (n0 n : nat) (f : Frame) : Prop :=
  exists i, (n0 < i < n)%nat /\ grabbed_frame (frames c i) = Some f.

(** the frame the capture thread holds between the read and the push *)
Definition in_hand w : list Frame :=
  match _thread (self w) with
  | Some (UCount f) => [f]
  | Some (UAppend f) => [f]
  | _ => []
  end.

(** a frame read and not yet counted *)
Definition uncounted w : Z :=
  match _thread (self w) with
  | Some (UCount _) => 1
  | _ => 0
  end.

(** With [n0] the index of the read that [start] made on [c]: the
    frames in the buffer and in the hands of the capture thread come
    from later reads, and the counter never exceeds their number. *)
Definition probe_inv c (n0 : nat) w : Prop :=
  exists c', _stream (self w) = Some c'
             /\ frames c' = frames c
             /\ (n0 < reads c')%nat
             /\ Forall (from_loop c n0 (reads c'))
                  (in_hand w ++ Deque.items (_frame_queue (self w)))
             /\ 0 <= frames_read (self w)
             /\ frames_read (self w) + uncounted w
                <= Z.of_nat (reads c') - Z.of_nat (S n0).

End Invariants.

(** ** Scenarios

    Concrete streams, with numbers for frames, on which the properties
    below are exercised. *)

(** The collector was started once. *)
Definition counting_once : world nat :=
  start_counting_fps (new_world "cmd" CAP_GSTREAMER).

(** A device that yields two frames and is lost; the stream after the
    first turn of the capture loop, the thread at the read that fails. *)
Definition lost_camera : world nat :=
  exec (turns 1 ++ [Capture])
    (snd (start (OpenReturns (feed [10%nat; 11%nat]))
            (new_world "cmd" CAP_GSTREAMER))).

(** What the consumer does between the failing read and the setting of
    the event: a frame displayed and a whole [read()] that empties the
    buffer. *)
Definition meanwhile : list action :=
  [Displayed; CallRead; Consumer; Consumer; Consumer].

(** the loss complete, and one more frame displayed afterwards *)
Local Abbreviation after_loss :=
  (exec [Displayed] (exec (Capture :: meanwhile ++ [Capture]) lost_camera)).

(** The camera is lost while two frames wait in the buffer, and the
    consumer enters [read()]. *)
Definition lost_with_frames : world nat :=
  exec (turns 2 ++ [Capture; Capture; Capture; CallRead])
    (snd (start (OpenReturns (feed [10%nat; 11%nat; 12%nat]))
            (new_world "cmd" CAP_GSTREAMER))).

(** A stream on a device with five frames, just started. *)
Definition running_stream : world nat :=
  snd (start (OpenReturns (feed [10%nat; 11%nat; 12%nat; 13%nat; 14%nat]))
         (new_world "cmd" CAP_GSTREAMER)).

(** Two frames are captured and one is read; [stop()] is then called
    and runs while the capture loop is between two statements. *)
Definition read_then_stop : list action :=
  turns 2 ++ read_call ++ [Capture; CallStop; Consumer; Capture;
                           Consumer; Capture; Capture; Capture; Capture;
                           Consumer; Consumer; Capture].

Local Abbreviation stopped_stream := (exec read_then_stop running_stream).

(** Three frames on the device: [start()] takes the first, two turns
    of the loop buffer the others. *)
Definition three_frames : VideoCapture nat := feed [10%nat; 11%nat; 12%nat].

Definition probed : world nat :=
  snd (start (OpenReturns three_frames) (new_world "cmd" CAP_GSTREAMER)).

Local Abbreviation two_turns_later := (exec (turns 2) probed).

(** ** Proof steps *)

(** case analysis on one step of the world *)
Ltac step_inv H :=
  unfold step, when_idle, consumer_step, capture_step, release_fps_stats,
    VideoCapture_read in H;
  repeat case_match; simplify_eq; simpl in *; simplify_eq.

(** use what is known, drop what cannot apply *)
Ltac prune :=
  repeat match goal with
         | H : ?x = ?x -> _ |- _ => specialize (H eq_refl)
         | H : ?P, H' : ?P -> _ |- _ => specialize (H' H)
         | H : ?a = ?b -> _ |- _ =>
           let E := fresh in
           assert (a = b -> False) as E by discriminate; clear H E
         | H : _ /\ _ |- _ => destruct H
         end.

(** ** Further operations and invariants *)

Section More.
Context {Frame : Type}.
Implicit Types (w : world Frame) (c : VideoCapture Frame).

(** [k] calls of [pop()] in a row: the elements popped, in the order of
    the calls, and the deque left; an [IndexError] ends the run. *)
Fixpoint pops (k : nat) (d : Deque.deque Frame)
    : exn + (list Frame * Deque.deque Frame) :=
  match k with
  | O => inr ([], d)
  | S k' =>
    match Deque.pop d with
    | inl e => inl e
    | inr (x, d') =>
      match pops k' d' with
      | inl e => inl e
      | inr (xs, d'') => inr (x :: xs, d'')
      end
    end
  end.

(** How many statements the capture thread still runs before it
    returns, at most, once [_stopped] is set. *)
Definition togo (pc : update_pc Frame) : nat :=
  match pc with
  | URead => 4
  | UCount _ => 3
  | UAppend _ => 2
  | UStopped => 1
  | UFailure => 1
  | UReturned => 0
  end.

(** whether the thread is about to read the device *)
Definition at_read (pc : update_pc Frame) : nat :=
  match pc with
  | URead => 1
  | _ => 0
  end.

Definition is_capture (a : action) : bool :=
  match a with Capture => true | _ => false end.

(** the turns the schedule gives to the capture thread *)
Definition captures (sched : list action) : nat :=
  length (List.filter is_capture sched).

(** an action of a thread other than the consumer *)
Definition background (a : action) : bool :=
  match a with
  | Capture | Tick _ => true
  | _ => false
  end.

Definition releases (tr : list (event Frame)) : nat :=
  length (List.filter is_release tr).

(** [pop()] is reached with something to pop. *)
Definition pop_safe w : Prop :=
  Deque.maxlen (_frame_queue (self w)) = _queue_depth
  /\ (consumer w = RPop -> (0 < Deque.len (_frame_queue (self w)))%nat)
  /\ Forall (fun e => forall msg, e <> EvRaise (IndexError msg)) (trace w).

(** The frames of the stream in the order of their capture: those
    [read()] has returned, those in the buffer, the one in the hands of
    the capture thread. *)
Definition in_order w : list Frame :=
  reverse (returned (trace w))
  ++ reverse (Deque.items (_frame_queue (self w)))
  ++ in_hand w.

(** the reads of the capture loop so far, [n0] being the read of
    [start] *)
Definition loop_reads (n0 n : nat) : list nat := seq (S n0) (n - S n0).

(** each number is smaller than all that follow it *)
Fixpoint increasing (l : list nat) : Prop :=
  match l with
  | [] => True
  | i :: l' => Forall (lt i) l' /\ increasing l'
  end.

(** Every frame of the stream comes from a read of the loop, and they
    follow each other as the reads did, no read being used twice. *)
Definition order_inv c (n0 : nat) w : Prop :=
  exists c' idx,
    _stream (self w) = Some c'
    /\ frames c' = frames c
    /\ (n0 < reads c')%nat
    /\ Deque.maxlen (_frame_queue (self w)) = _queue_depth
    /\ (Deque.len (_frame_queue (self w)) <= _queue_depth)%nat
    /\ idx `sublist_of` loop_reads n0 (reads c')
    /\ Forall2 (fun i f => grabbed_frame (frames c i) = Some f)
         idx (in_order w).

(** The consumer is inside a [read()] that can neither return nor
    raise: nothing is buffered, nothing will be, no failure is set. *)
Definition spinning (tr : list (event Frame)) w : Prop :=
  _thread (self w) = Some UReturned
  /\ _update_failure (self w) = Some false
  /\ Deque.items (_frame_queue (self w)) = []
  /\ (consumer w = RFailure \/ consumer w = RLen)
  /\ trace w = tr.

(** Timer [i] runs and is no longer the one [fps_timer] names. *)
Definition leaked (i : nat) w : Prop :=
  exists t j, timers w !! i = Some t
              /\ ticking t = true
              /\ fps_timer (self w) = Some j
              /\ (i < j)%nat.

(** Timer [i] was cancelled. *)
Definition cancelled (i : nat) w : Prop :=
  exists t, timers w !! i = Some t /\ finished t = true.

(** No timer was ever created; the snapshots are what they were. *)
Definition not_counting (a b : Z) w : Prop :=
  timers w = []
  /\ last_frames_read (self w) = a
  /\ last_frames_displayed (self w) = b.

(** a read of the loop that yielded no frame: at most one, the last *)
Definition failed_reads w : Z :=
  match _thread (self w), _update_failure (self w) with
  | Some UFailure, _ => 1
  | _, Some true => 1
  | _, _ => 0
  end.

(** With no timer to reset it, [frames_read] accounts for every read of
    the loop: counted, about to be counted, or failed. *)
Definition counted_inv (n0 : nat) w : Prop :=
  is_Some (_stream (self w))
  /\ (n0 < device_reads w)%nat
  /\ timers w = []
  /\ is_Some (_thread (self w))
  /\ is_Some (_update_failure (self w))
  /\ (_update_failure (self w) = Some true ->
      _thread (self w) = Some UReturned)
  /\ frames_read (self w) + uncounted w + failed_reads w
     = Z.of_nat (device_reads w) - Z.of_nat (S n0).

Definition is_start_counting (a : action) : bool :=
  match a with CallStartCountingFps => true | _ => false end.

(** [stop()], from the call to its last statement, with the capture
    thread given [k] turns while the consumer waits at the [join]. *)
Definition stop_call (between : list action) : list action :=
  [CallStop; Consumer] ++ between ++ [Consumer; Consumer].

End More.

(** ** More scenarios *)

(** the device of [running_stream] *)
Definition five_frames : VideoCapture nat :=
  feed [10%nat; 11%nat; 12%nat; 13%nat; 14%nat].

(** Three frames are captured before the first [read()], so that
    frame 11 is dropped; then one more, and two more [read()]s. *)
Definition skipping : list action :=
  turns 3 ++ read_call ++ turns 1 ++ read_call ++ read_call.

Local Abbreviation read_thrice := (exec skipping running_stream).

(** The capture thread stands at the read, past the test of the flag;
    the consumer is outside any method. *)
Definition mid_stream : world nat :=
  exec (turns 1 ++ [Capture]) running_stream.

(** the same, [stop()] having just set the flag *)
Definition stopping : world nat := exec [CallStop; Consumer] mid_stream.

(** the turns the capture thread takes to return, a tick in between *)
Definition last_turn : list action :=
  [Capture; Tick 0%nat; Capture; Capture; Capture].

Local Abbreviation wound_down := (exec last_turn stopping).

Local Abbreviation stopped_mid_stream := (exec (stop_call last_turn) mid_stream).

(** One frame captured and read, then a complete [stop()]: a healthy
    stream, stopped, with an empty buffer. *)
Definition drained_and_stopped : world nat :=
  exec (turns 1 ++ read_call ++ stop_call [Capture]) probed.

(** a stream that is never started *)
Definition idle_stream : world nat := new_world "cmd" CAP_GSTREAMER.

(** The collector is started twice, then released, then a frame is
    displayed. *)
Definition after_release : list action :=
  [CallReleaseFpsStats; Displayed].

Local Abbreviation counting_twice :=
  (start_counting_fps (start_counting_fps idle_stream)).

(** Frames are captured, read and displayed; the collector is never
    started. *)
Definition uncounted_run : list action :=
  turns 2 ++ read_call ++ [Displayed; Tick 0%nat; CallReleaseFpsStats].

Local Abbreviation never_counting :=
  (exec uncounted_run
     (snd (start (OpenReturns five_frames) (new_world "cmd" CAP_GSTREAMER)))).

(** * Properties *)

(** ** The frame queue *)

Section DequeFacts.
Context {A : Type}.
Implicit Types (d : Deque.deque A) (x : A).

Lemma maxlen_apply d o : Deque.maxlen (Deque.apply d o) = Deque.maxlen d.
Proof.
  destruct o as [x|]; simpl; [done|].
  unfold Deque.pop. by destruct (reverse (Deque.items d)).
Qed.

Lemma maxlen_pushes xs d : Deque.maxlen (Deque.pushes xs d) = Deque.maxlen d.
Proof.
  revert d. induction xs as [|x xs IH]; intros d; [done|].
  unfold Deque.pushes in *. simpl. by rewrite IH.
Qed.

Lemma len_appendleft x d :
  (Deque.len (Deque.appendleft x d) <= Deque.maxlen d)%nat.
Proof.
  unfold Deque.len, Deque.appendleft. simpl. rewrite length_take. lia.
Qed.

Lemma len_apply d o :
  (Deque.len d <= Deque.maxlen d)%nat ->
  (Deque.len (Deque.apply d o) <= Deque.maxlen d)%nat.
Proof.
  intros Hd. destruct o as [x|]; simpl; [apply len_appendleft|].
  unfold Deque.pop, Deque.len in *.
  destruct (reverse (Deque.items d)) as [|y r] eqn:E; [done|].
  simpl. rewrite length_reverse.
  assert (length (Deque.items d) = S (length r)) as Hl.
  { by rewrite <- (length_reverse (Deque.items d)), E. }
  lia.
Qed.

(** The bound on the length survives every mix of pushes and pops. *)
Lemma len_run os d :
  (Deque.len d <= Deque.maxlen d)%nat ->
  (Deque.len (Deque.run os d) <= Deque.maxlen d)%nat.
Proof.
  revert d. induction os as [|o os IH]; intros d Hd; [done|].
  unfold Deque.run in *. simpl.
  rewrite <- (maxlen_apply d o). apply IH.
  rewrite maxlen_apply. by apply len_apply.
Qed.

(** Two pushes decide the content of a deque of depth two. *)
Lemma appendleft_twice x y d :
  Deque.maxlen d = 2%nat ->
  Deque.appendleft y (Deque.appendleft x d) = Deque.Build [y; x] 2.
Proof.
  intros Hm. unfold Deque.appendleft. simpl. by rewrite Hm.
Qed.

Lemma pushes_snoc xs x d :
  Deque.pushes (xs ++ [x]) d = Deque.appendleft x (Deque.pushes xs d).
Proof. unfold Deque.pushes. by rewrite foldl_snoc. Qed.

(** What two or more pushes leave in a deque of depth two. *)
Lemma pushes_last_two xs a b d :
  Deque.maxlen d = 2%nat ->
  Deque.pushes (xs ++ [a; b]) d = Deque.Build [b; a] 2.
Proof.
  intros Hm.
  replace (xs ++ [a; b]) with ((xs ++ [a]) ++ [b])
    by (by rewrite <- app_assoc).
  rewrite !pushes_snoc. apply appendleft_twice.
  by rewrite maxlen_pushes.
Qed.

(** A list of more than two elements ends in two of them. *)
Lemma split_last_two (xs : list A) :
  (2 <= length xs)%nat ->
  exists ys a b, xs = ys ++ [a; b] /\ drop (length xs - 2) xs = [a; b].
Proof.
  intros Hl.
  destruct (decide (xs = [])) as [->|Hne]; [simpl in Hl; lia|].
  destruct (exists_last Hne) as [xs1 [b ->]].
  rewrite length_app in Hl. simpl in Hl.
  destruct (decide (xs1 = [])) as [->|Hne1]; [simpl in Hl; lia|].
  destruct (exists_last Hne1) as [ys [a ->]].
  exists ys, a, b. rewrite <- app_assoc. simpl. split; [done|].
  rewrite length_app. simpl.
  replace (length ys + 2 - 2)%nat with (length ys) by lia.
  by rewrite drop_app_length.
Qed.

End DequeFacts.

(** ** Construction of the stream *)

(** The pipeline of the application: sensor 0, half a turn, the
    4032x3040 mode of the IMX477, a 640x480 display. *)
Example pipeline_of_the_application :
  match resolve_profile 0 (PyRotation ROTATE_180)
          (PyMode IMX477_4032x3040_30_0) 640 480 with
  | inr p => Some (pipeline p)
  | inl _ => None
  end
  = Some ("nvarguscamerasrc sensor-id=0 sensor-mode=0 !" +:+
         "video/x-raw(memory:NVMM), width=(int)4032, height=(int)3040, " +:+
         "format=(string)NV12, framerate=(fraction)30/1 ! " +:+
         "nvvidconv flip-method=2 ! " +:+
         "video/x-raw, width=(int)640, height=(int)480,format=(string)BGRx ! " +:+
         "videoconvert ! video/x-raw, format=(string)BGR ! appsink " +:+
         "wait-on-eos=false drop=true max-buffers=60").
Proof. vm_compute. reflexivity. Qed.

(** An integer is not a member of [FrameRotation], whatever its value. *)
Example rotation_given_as_a_number :
  resolve_profile 0 (PyInt 90) (PyMode IMX219_1920x1080_30_2) 640 480
  = inl (ValueError "Invalid input for rotation: 90").
Proof. vm_compute. reflexivity. Qed.

(** ** The counters *)

Section StatsFacts.
Context {Frame : Type}.
Implicit Types (s : BaseVideoStream Frame) (es : list counter_event).

Lemma frames_read_count s e :
  frames_read (count s e) = frames_read s + occurrences FrameRead [e].
Proof. destruct e; simpl; lia. Qed.

Lemma frames_displayed_count s e :
  frames_displayed (count s e)
    = frames_displayed s + occurrences FrameDisplayed [e].
Proof. destruct e; simpl; lia. Qed.

(** The live counters after any interleaving of the two writers. *)
Lemma live_counters_foldl es s :
  frames_read (foldl count s es) = frames_read s + occurrences FrameRead es
  /\ frames_displayed (foldl count s es)
     = frames_displayed s + occurrences FrameDisplayed es.
Proof.
  revert s. induction es as [|e es IH]; intros s; simpl; [lia|].
  destruct (IH (count s e)) as [-> ->].
  rewrite frames_read_count, frames_displayed_count. simpl. lia.
Qed.

End StatsFacts.

(** ** The interleaved threads *)

Section WorldFacts.
Context {Frame : Type}.
Implicit Types (w : world Frame) (a : action) (sched : list action).

Lemma exec_cons a sched w :
  exec (a :: sched) w = exec sched (default w (step a w)).
Proof. reflexivity. Qed.

Lemma exec_app sched1 sched2 w :
  exec (sched1 ++ sched2) w = exec sched2 (exec sched1 w).
Proof. unfold exec. by rewrite foldl_app. Qed.

(** Running a schedule stays within what is reachable. *)
Lemma exec_reachable sched w : reachable w (exec sched w).
Proof.
  revert w. induction sched as [|a sched IH]; intros w; [apply rtc_refl|].
  rewrite exec_cons. destruct (step a w) as [w'|] eqn:E; simpl; [|apply IH].
  eapply rtc_l; [by exists a|apply IH].
Qed.

(** An invariant of every step holds wherever a run leads. *)
Lemma reachable_invariant (P : world Frame -> Prop) w w' :
  (forall a w1 w2, step a w1 = Some w2 -> P w1 -> P w2) ->
  reachable w w' -> P w -> P w'.
Proof.
  intros Hstep Hrun. induction Hrun as [|w1 w2 w3 [a Ha] _ IH]; [done|].
  intros HP. apply IH. by eapply Hstep.
Qed.

(** *** Once the loop has returned after a failure *)

Lemma lost_step n a w w' : step a w = Some w' -> lost n w -> lost n w'.
Proof.
  unfold lost, device_reads. intros Hstep (Ht & Hf & Hn).
  destruct a; step_inv Hstep; done.
Qed.

Lemma lost_reachable n w w' : reachable w w' -> lost n w -> lost n w'.
Proof. apply reachable_invariant. intros a. apply lost_step. Qed.

(** *** The queue within its depth *)

Lemma queue_inv_new cmd backend : queue_inv (new_world (Frame := Frame) cmd backend).
Proof. unfold queue_inv, Deque.len. simpl. split; [done|lia]. Qed.

Lemma queue_inv_start env w : queue_inv w -> queue_inv (snd (start env w)).
Proof.
  unfold queue_inv, start. intros Hq.
  destruct env as [| |c]; simpl; try done.
  destruct (opened c); simpl; [|done].
  by destruct (grabbed_frame _).
Qed.

Lemma queue_inv_step a w w' : step a w = Some w' -> queue_inv w -> queue_inv w'.
Proof.
  unfold queue_inv. intros Hstep [Hm Hl].
  destruct a; step_inv Hstep; try done.
  - match goal with
    | H : Deque.pop ?q = inr (_, ?d) |- _ =>
      pose proof (maxlen_apply q Deque.Pop) as Hm';
      pose proof (len_apply q Deque.Pop) as Hl';
      simpl in Hm', Hl'; rewrite H in Hm', Hl'
    end.
    rewrite Hm', Hm. split; [done|]. rewrite <- Hm. apply Hl'. by rewrite Hm.
  - split; [done|]. rewrite <- Hm. apply len_appendleft.
Qed.

(** *** What the other threads leave to the capture thread *)

Lemma others_step a w w' :
  a <> Capture -> step a w = Some w' ->
  _thread (self w') = _thread (self w)
  /\ device_reads w' = device_reads w
  /\ (is_Some (_update_failure (self w)) ->
      is_Some (_update_failure (self w'))).
Proof.
  unfold device_reads. intros Ha Hstep.
  destruct a; step_inv Hstep; done.
Qed.

Lemma others_exec others w :
  Forall (fun a => a <> Capture) others ->
  _thread (self (exec others w)) = _thread (self w)
  /\ device_reads (exec others w) = device_reads w
  /\ (is_Some (_update_failure (self w)) ->
      is_Some (_update_failure (self (exec others w)))).
Proof.
  intros Hall. revert w.
  induction Hall as [|a others Ha _ IH]; intros w; [done|].
  rewrite exec_cons. destruct (step a w) as [w'|] eqn:E; simpl; [|apply IH].
  destruct (others_step a w w' Ha E) as (Ht & Hn & Hf).
  destruct (IH w') as (Ht' & Hn' & Hf').
  rewrite Ht', Hn', Ht, Hn. auto.
Qed.

(** *** Once the consumer has seen the failure *)

Lemma seen_step r a w w' : step a w = Some w' -> seen r w -> seen r w'.
Proof.
  unfold seen. intros Hstep (Hf & Hl & Hp & Hr).
  destruct a; step_inv Hstep; try done; repeat split; congruence.
Qed.

End WorldFacts.

(** ** stop and the device *)

Section ReleaseFacts.
Context {Frame : Type}.
Implicit Types (w : world Frame) (a : action).

Lemma release_inv_step a w w' :
  step a w = Some w' -> release_inv w -> release_inv w'.
Proof.
  unfold release_inv, joined, device_released.
  intros Hstep ([pc Hpc] & Hj & Hr & Hd & He & Hn).
  destruct a; step_inv Hstep.
  all: try (destruct (existsb is_release (trace w)) eqn:Hex; simpl in *).
  all: prune.
  all: repeat split; intros; prune; try done; try congruence; eauto.
Qed.

Lemma release_inv_start env cmd backend w1 :
  start env (new_world cmd backend) = (None, w1) -> release_inv w1.
Proof.
  unfold start. intros Hstart.
  destruct env as [| |c]; simpl in Hstart; try discriminate.
  destruct (opened c) eqn:Ho; simpl in Hstart; [|discriminate].
  destruct (released c) eqn:Hrel; simpl in Hstart; [discriminate|].
  destruct (grabbed_frame (frames c (reads c))); [|discriminate].
  injection Hstart as <-.
  unfold release_inv, joined, device_released. simpl.
  repeat split; try done; try congruence; by eexists.
Qed.

End ReleaseFacts.

(** ** The frame that start reads *)

Section ProbeFacts.
Context {Frame : Type}.
Implicit Types (w : world Frame) (a : action) (c : VideoCapture Frame).

Lemma from_loop_mono c n0 n f : from_loop c n0 n f -> from_loop c n0 (S n) f.
Proof. intros (i & Hi & Hf). exists i. split; [lia|done]. Qed.

Lemma Forall_from_loop_mono c n0 n (fs : list Frame) :
  Forall (from_loop c n0 n) fs -> Forall (from_loop c n0 (S n)) fs.
Proof.
  intros H. eapply Forall_impl; [exact H|].
  intros f. apply from_loop_mono.
Qed.

(** what [pop] leaves and what it returns were in the deque *)
Lemma pop_items (d q : Deque.deque Frame) (f : Frame) :
  Deque.pop d = inr (f, q) -> Deque.items d = Deque.items q ++ [f].
Proof.
  unfold Deque.pop. destruct (reverse (Deque.items d)) as [|x r] eqn:E;
    [discriminate|].
  intros [= <- <-]. simpl.
  rewrite <- (reverse_involutive (Deque.items d)), E.
  by rewrite reverse_cons.
Qed.

Lemma Forall_take_cons (P : Frame -> Prop) n f (fs : list Frame) :
  P f -> Forall P fs -> Forall P (take n (f :: fs)).
Proof. intros Hf Hfs. apply Forall_take. by constructor. Qed.

Lemma probe_inv_step c n0 a w w' :
  step a w = Some w' -> probe_inv c n0 w -> probe_inv c n0 w'.
Proof.
  unfold probe_inv, in_hand, uncounted.
  intros Hstep (c' & Hs & Hfr & Hlt & Hall & H0 & Hle).
  destruct a; step_inv Hstep;
    try (eexists; repeat split; simpl; eauto; lia).
  all: eexists; (split; [first [eassumption | reflexivity]|]); simpl.
  all: repeat match goal with
              | H : Deque.pop _ = inr _ |- _ =>
                apply pop_items in H; rewrite H in Hall;
                rewrite ?app_comm_cons in Hall;
                apply Forall_app in Hall; destruct Hall as [Hall _]
              end.
  all: repeat split; try done; try lia.
  all: try (by apply Forall_from_loop_mono).
  all: try (inversion Hall; subst; by apply Forall_take_cons).
  all: try (constructor; [|by apply Forall_from_loop_mono]).
  all: try (eexists; split; [|rewrite <- Hfr; eassumption]; lia).
Qed.

End ProbeFacts.

(** * The claims *)

(** C1. After the pushes P1, P2, P3, in that order and with no pop in
    between, the first pop returns P2 and leaves P3: [appendleft] enters
    on the left and pushes the oldest frame out on the right, [pop]
    takes from the right.  This holds for the deque of depth
    [_queue_depth] whatever it held before; and for the stream itself:
    on a device that yields P0 (taken by [start]), P1, P2, P3, three
    turns of the capture loop followed by one [read()] return P2. *)
Theorem C1_first_pop_is_second_most_recent
    {Frame : Type} (d : Deque.deque Frame) (P1 P2 P3 : Frame) :
  Deque.maxlen d = _queue_depth ->
  Deque.pop (Deque.pushes [P1; P2; P3] d)
    = inr (P2, Deque.Build [P3] _queue_depth)
  /\ forall (P0 : Frame) cmd backend,
       let w := snd (start (OpenReturns (feed [P0; P1; P2; P3]))
                       (new_world cmd backend)) in
       let w' := exec (turns 3 ++ read_call) w in
       head (trace w') = Some (EvReturn P2)
       /\ Deque.items (_frame_queue (self w')) = [P3].
Proof.
  intros Hm. split.
  - change [P1; P2; P3] with ([P1] ++ [P2; P3]).
    by rewrite (pushes_last_two _ _ _ _ Hm).
  - intros P0 cmd backend. by vm_compute.
Qed.

Lemma C1_witness :
  Deque.pop (Deque.pushes [1%nat; 2%nat; 3%nat] (Deque.new _queue_depth))
    = inr (2%nat, Deque.Build [3%nat] _queue_depth).
Proof.
  apply (C1_first_pop_is_second_most_recent
           (Deque.new _queue_depth) 1%nat 2%nat 3%nat).
  reflexivity.
Defined.

(** C2. The frame queue never holds more than two frames: not after any
    mix of pushes and pops on the deque, and not in any state of a
    stream, started or not, whatever the schedule of its threads.  After
    N > 2 pushes with no pop it holds exactly the last two frames
    pushed, the newest on the left: all the older ones are gone. *)
Theorem C2_queue_keeps_the_two_newest
    {Frame : Type} (d : Deque.deque Frame) (fs : list Frame) :
  Deque.maxlen d = _queue_depth ->
  (2 < length fs)%nat ->
  (forall os : list (Deque.op Frame),
     (Deque.len (Deque.run os (Deque.new _queue_depth)) <= 2)%nat)
  /\ (forall (env : open_outcome Frame) cmd backend sched,
        let w := exec sched (snd (start env (new_world cmd backend))) in
        (Deque.len (_frame_queue (self w)) <= 2)%nat)
  /\ Deque.items (Deque.pushes fs d) = reverse (drop (length fs - 2) fs)
  /\ Deque.len (Deque.pushes fs d) = 2%nat.
Proof.
  intros Hm Hl. split; [|split].
  - intros os.
    apply (len_run os (Deque.new _queue_depth)).
    unfold Deque.len. simpl. lia.
  - intros env cmd backend sched w.
    assert (queue_inv w) as [_ Hlen]; [|exact Hlen].
    eapply (reachable_invariant queue_inv); [|apply exec_reachable|].
    + intros a. apply queue_inv_step.
    + apply queue_inv_start, queue_inv_new.
  - destruct (split_last_two fs) as (ys & a & b & -> & Hd); [lia|].
    rewrite Hd, (pushes_last_two _ _ _ _ Hm). by split.
Qed.

Lemma C2_witness :
  Deque.items (Deque.pushes [1%nat; 2%nat; 3%nat; 4%nat; 5%nat]
                 (Deque.new _queue_depth)) = [5%nat; 4%nat].
Proof.
  apply (C2_queue_keeps_the_two_newest (Deque.new _queue_depth)
           [1%nat; 2%nat; 3%nat; 4%nat; 5%nat]); [reflexivity|simpl; lia].
Defined.

(** C3. When a read of the device fails in the capture loop, the loop
    sets the failure event and returns, whatever the other threads do in
    between; from then on the thread stays returned and the device is
    never read again (no retry), and the next call of [read()] raises
    [CameraConnectionLost] at its first statement, before it looks at
    the buffer, so it cannot wait forever on an empty one.  A [read()]
    that is already waiting on an empty buffer raises as well, at its
    next test of the event. *)
Theorem C3_failed_read_ends_the_loop_and_read_raises
    {Frame : Type} (w : world Frame) (c : VideoCapture Frame)
    (others sched : list action) :
  _thread (self w) = Some URead ->
  _stream (self w) = Some c ->
  grabbed_frame (fst (VideoCapture_read c)) = None ->
  is_Some (_update_failure (self w)) ->
  Forall (fun a => a <> Capture) others ->
  let w1 := exec (Capture :: others ++ [Capture]) w in
  let w2 := exec sched w1 in
  (_update_failure (self w1) = Some true
   /\ _thread (self w1) = Some UReturned)
  /\ (_update_failure (self w2) = Some true
      /\ _thread (self w2) = Some UReturned
      /\ step Capture w2 = None
      /\ device_reads w2 = S (reads c))
  /\ (consumer w2 = Idle ->
      exists w3, step CallRead w2 = Some w3
                 /\ step Consumer w3 = Some (raise CameraConnectionLost w3))
  /\ (consumer w2 = RFailure ->
      step Consumer w2 = Some (raise CameraConnectionLost w2))
  /\ (consumer w2 = RLen -> Deque.len (_frame_queue (self w2)) = 0%nat ->
      exists w3, step Consumer w2 = Some w3
                 /\ step Consumer w3 = Some (raise CameraConnectionLost w3)).
Proof.
  intros Ht Hs Hr Hf Hothers w1 w2.
  assert (lost (S (reads c)) w1) as Hlost.
  { subst w1 w2. rewrite exec_cons, exec_app.
    assert (exists wa, step Capture w = Some wa
                       /\ _thread (self wa) = Some UFailure
                       /\ device_reads wa = S (reads c)
                       /\ is_Some (_update_failure (self wa)))
      as (wa & -> & Hta & Hna & Hfa).
    { unfold step, capture_step, device_reads. rewrite Ht, Hs.
      destruct (VideoCapture_read c) as [r c'] eqn:E. simpl in Hr.
      rewrite Hr. eexists. split; [reflexivity|]. simpl.
      unfold VideoCapture_read in E. by simplify_eq. }
    simpl. destruct (others_exec others wa Hothers) as (Ht' & Hn' & Hf').
    specialize (Hf' Hfa). destruct Hf' as [b Hb].
    rewrite Hta in Ht'. set (wb := exec others wa) in *.
    unfold exec. simpl. unfold capture_step. rewrite Ht', Hb. simpl.
    unfold lost, device_reads in *. simpl. by rewrite <- Hna, <- Hn'. }
  assert (lost (S (reads c)) w2) as (Ht2 & Hf2 & Hn2).
  { eapply lost_reachable; [apply exec_reachable|exact Hlost]. }
  destruct Hlost as (Ht1 & Hf1 & _).
  split; [done|]. split.
  { repeat split; try done. unfold step. by rewrite Ht2. }
  split; [|split].
  - intros Hidle. eexists. unfold step at 1, when_idle. rewrite Hidle.
    split; [reflexivity|]. unfold step, consumer_step. simpl. by rewrite Hf2.
  - intros Hpc. unfold step, consumer_step. by rewrite Hpc, Hf2.
  - intros Hpc Hlen. eexists. unfold step at 1, consumer_step.
    rewrite Hpc, Hlen. simpl. split; [reflexivity|].
    unfold step, consumer_step. simpl. by rewrite Hf2.
Qed.

Lemma C3_witness :
  consumer after_loss = Idle
  /\ Deque.len (_frame_queue (self after_loss)) = 0%nat
  /\ exists w3, step CallRead after_loss = Some w3
                /\ step Consumer w3 = Some (raise CameraConnectionLost w3).
Proof.
  assert (consumer after_loss = Idle) as Hidle by (vm_compute; reflexivity).
  split; [exact Hidle|]. split; [vm_compute; reflexivity|].
  assert (_thread (self lost_camera) = Some URead) as Ht
    by (vm_compute; reflexivity).
  assert (_stream (self lost_camera)
          = Some {| opened := true;
                    frames := frames (feed [10%nat; 11%nat]);
                    reads := 2; released := false |}) as Hs
    by (vm_compute; reflexivity).
  assert (is_Some (_update_failure (self lost_camera))) as Hf
    by (exists false; vm_compute; reflexivity).
  assert (Forall (fun a : action => a <> Capture) meanwhile) as Ho
    by (repeat constructor; discriminate).
  pose proof (C3_failed_read_ends_the_loop_and_read_raises lost_camera _
                meanwhile [Displayed] Ht Hs eq_refl Hf Ho) as H.
  cbv zeta in H.
  destruct H as (_ & _ & Hread & _). exact (Hread Hidle).
Defined.

(** C4. For every member of [FrameRotation] and every member of
    [JetsonCameraMode], [JetsonVideoStream.__init__] settles on the flip
    code of the rotation and on the mode index, capture width, capture
    height and framerate that the name of the mode documents; for every
    other value of [rotation] or of [camera_mode] construction fails with
    the configuration error of the code, [ValueError], and no object, hence
    no default, comes out. *)
Theorem C4_profile_is_the_documented_one_or_an_error
    {Frame : Type} (cam : Z) (rotation camera_mode : pyval)
    (display_width display_height : Z) :
  match rotation, camera_mode with
  | PyRotation r, PyMode m =>
    exists p base,
      @JetsonVideoStream__init__ Frame cam rotation camera_mode
        display_width display_height = inr (p, base)
      /\ flip p = documented_flip r
      /\ documented_mode m
         = Some (_mode p, _capture_width p, _capture_height p, _framerate p)
      /\ _sensor_id p = cam
      /\ _display_width p = display_width
      /\ _display_height p = display_height
  | _, _ =>
    exists msg,
      @JetsonVideoStream__init__ Frame cam rotation camera_mode
        display_width display_height = inl (ValueError msg)
  end.
Proof.
  destruct rotation as [r|m0|z|s|], camera_mode as [r0|m|z0|s0|];
    try (eexists; unfold JetsonVideoStream__init__, resolve_profile;
         simpl; try destruct r; reflexivity).
  destruct r, m; do 2 eexists; (split; [reflexivity|]); simpl;
    repeat split; reflexivity.
Qed.

(** C5. [start()] raises [CameraFailedToStart], with the command and the
    backend of the stream, when the backend cannot open the descriptor
    (the constructor raises, or yields nothing, or yields a capture that
    is not open) and when the first read fails; in each of these cases
    [_thread] is what it was before the call, which for a stream that was
    never started is [None]: no capture thread was created. *)
Theorem C5_failed_start_raises_and_starts_no_thread
    {Frame : Type} (env : open_outcome Frame) (w : world Frame) :
  (env = OpenRaises \/ env = OpenNone
   \/ (exists c, env = OpenReturns c /\ opened c = false)
   \/ (exists c, env = OpenReturns c /\ opened c = true
                 /\ grabbed_frame (fst (VideoCapture_read c)) = None)) ->
  (exists append,
     fst (start env w)
       = Some (CameraFailedToStart (_cmd (self w)) (_backend (self w)) append))
  /\ _thread (self (snd (start env w))) = _thread (self w)
  /\ (forall cmd backend, w = new_world cmd backend ->
      _thread (self (snd (start env w))) = None).
Proof.
  intros Hfail.
  assert ((exists append,
            fst (start env w)
              = Some (CameraFailedToStart (_cmd (self w))
                        (_backend (self w)) append))
          /\ _thread (self (snd (start env w))) = _thread (self w))
    as [Hraise Hthread].
  { destruct Hfail as [-> | [-> | [(c & -> & Hc) | (c & -> & Hc & Hr)]]];
      unfold start; simpl.
    - split; [by eexists|done].
    - split; [by eexists|done].
    - rewrite Hc. simpl. split; [by eexists|done].
    - unfold VideoCapture_read in *. simpl in *. rewrite Hc in *.
      simpl in *. split; [eexists|]; rewrite Hr; reflexivity. }
  split; [exact Hraise|]. split; [exact Hthread|].
  intros cmd backend ->. by rewrite Hthread.
Qed.

Lemma C5_witness :
  fst (start (OpenReturns (feed (Frame := nat) [])) (new_world "cmd" CAP_GSTREAMER))
    = Some (CameraFailedToStart "cmd" CAP_GSTREAMER "Failed to grab frame")
  /\ fst (start OpenRaises (new_world (Frame := nat) "cmd" CAP_GSTREAMER))
    = Some (CameraFailedToStart "cmd" CAP_GSTREAMER "")
  /\ _thread (self (snd (start (OpenReturns (feed (Frame := nat) []))
                           (new_world "cmd" CAP_GSTREAMER)))) = None.
Proof.
  split; [reflexivity|]. split; [reflexivity|].
  refine (proj2 (proj2 (C5_failed_start_raises_and_starts_no_thread
            (OpenReturns (feed (Frame := nat) []))
            (new_world "cmd" CAP_GSTREAMER) _)) "cmd" CAP_GSTREAMER eq_refl).
  right. right. right. exists (feed []).
  split; [reflexivity|]. split; reflexivity.
Defined.

(** C6. On a stream that was started (once, as [__enter__] does),
    [stop()] sets [_stopped], then joins the capture thread, and releases
    the device only after that: at every moment of every interleaving,
    the consumer is at the [join] only with the flag set, is at the
    [release] only with the flag set and the capture thread returned,
    and the device is released only in such a state, in which the
    capture thread can take no further step; so in the whole history no
    read of the device comes after a release. *)
Theorem C6_stop_joins_before_it_releases
    {Frame : Type} (env : open_outcome Frame) (cmd : string) (backend : Z)
    (w1 w : world Frame) :
  start env (new_world cmd backend) = (None, w1) ->
  reachable w1 w ->
  (consumer w = SJoin -> _stopped (self w) = true)
  /\ (consumer w = SRelease ->
      _stopped (self w) = true /\ _thread (self w) = Some UReturned)
  /\ (device_released w = true ->
      _stopped (self w) = true /\ _thread (self w) = Some UReturned
      /\ step Capture w = None)
  /\ no_read_after_release (trace w) = true.
Proof.
  intros Hstart Hrun.
  assert (release_inv w) as (_ & Hj & Hr & Hd & _ & Hn).
  { eapply (reachable_invariant _ w1 w); [|exact Hrun|].
    - intros a. apply release_inv_step.
    - by eapply release_inv_start. }
  split; [exact Hj|]. split; [|split; [|exact Hn]].
  - intros Hpc. by destruct (Hr Hpc).
  - intros Hrel. destruct (Hd Hrel) as [Ht Hs].
    repeat split; try done. unfold step. by rewrite Ht.
Qed.

Lemma C6_witness :
  trace stopped_stream
    = [EvRelease; EvRead; EvReturn 11%nat; EvRead; EvRead; EvRead]
  /\ device_released stopped_stream = true
  /\ no_read_after_release (trace stopped_stream) = true.
Proof.
  split; [vm_compute; reflexivity|]. split; [vm_compute; reflexivity|].
  assert (start (OpenReturns (feed [10%nat; 11%nat; 12%nat; 13%nat; 14%nat]))
            (new_world "cmd" CAP_GSTREAMER) = (None, running_stream))
    as Hstart by (vm_compute; reflexivity).
  exact (proj2 (proj2 (proj2
    (C6_stop_joins_before_it_releases _ _ _ running_stream stopped_stream
       Hstart (exec_reachable read_then_stop running_stream))))).
Defined.

(** C7. A tick, [update_fps_stats], copies the live [frames_read] and
    [frames_displayed] into [last_frames_read] and [last_frames_displayed]
    and sets both live counters to zero.  Hence one tick after k
    increments of [frames_read] and m increments of [frames_displayed], in
    any order, counted from zero (a new stream, or the state a previous
    tick left) and with nothing else going on, leaves
    [last_frames_read = k], [last_frames_displayed = m] and the live
    counters at 0. *)
Theorem C7_tick_copies_and_resets
    {Frame : Type} (s : BaseVideoStream Frame) (es : list counter_event)
    (cmd : string) (backend : Z) :
  let k := occurrences FrameRead es in
  let m := occurrences FrameDisplayed es in
  let tick := update_fps_stats in
  let after s0 := tick (foldl count s0 es) in
  let new := BaseVideoStream__init__ cmd backend in
  (last_frames_read (tick s) = frames_read s
   /\ last_frames_displayed (tick s) = frames_displayed s
   /\ frames_read (tick s) = 0
   /\ frames_displayed (tick s) = 0)
  /\ (last_frames_read (after new) = k
      /\ last_frames_displayed (after new) = m
      /\ frames_read (after new) = 0
      /\ frames_displayed (after new) = 0)
  /\ (last_frames_read (after (tick s)) = k
      /\ last_frames_displayed (after (tick s)) = m
      /\ frames_read (after (tick s)) = 0
      /\ frames_displayed (after (tick s)) = 0).
Proof.
  intros k m tick after new. subst k m tick after new.
  split; [by repeat split|].
  split; repeat split; simpl;
    first [ reflexivity
          | match goal with
            | |- context [foldl count ?s0 es] =>
              destruct (live_counters_foldl es s0) as [Hr Hd];
              first [rewrite Hr | rewrite Hd]; simpl; lia
            end ].
Qed.

(** C8, as the claim states it, fails: a second [start_counting_fps] on a
    stream whose collector is running raises nothing. *)
Lemma C8_second_start_is_not_reported :
  fps_timer (self counting_once) = Some 0%nat
  /\ consumer counting_once = Idle
  /\ ~ reported CallStartCountingFps counting_once.
Proof.
  split; [reflexivity|]. split; [reflexivity|].
  intros (e & w' & Hstep & Htr).
  vm_compute in Hstep. injection Hstep as <-. discriminate Htr.
Qed.

(** C8, amended.  [release_fps_stats] before any [start_counting_fps]
    (while [fps_timer] is still [None]) ends in an exception, an
    [AttributeError], that reaches the caller, and changes nothing else.
    [start_counting_fps] never raises: called again, it creates and
    starts one more timer and makes [fps_timer] name it, and the timers
    that were running keep running. *)
Theorem C8_stop_before_start_raises_start_never_does
    {Frame : Type} (w : world Frame) :
  consumer w = Idle ->
  (fps_timer (self w) = None ->
   exists msg,
     step CallReleaseFpsStats w = Some (raise (AttributeError msg) w)
     /\ reported CallReleaseFpsStats w)
  /\ (exists w',
        step CallStartCountingFps w = Some w'
        /\ trace w' = trace w
        /\ fps_timer (self w') = Some (length (timers w))
        /\ timers w'
           = timers w ++ [{| started := true; finished := false |}]).
Proof.
  intros Hidle. split.
  - intros Hnone. eexists. split.
    + unfold step, when_idle, release_fps_stats. rewrite Hidle, Hnone.
      reflexivity.
    + unfold reported, step, when_idle, release_fps_stats.
      rewrite Hidle, Hnone. do 2 eexists. split; reflexivity.
  - eexists. unfold step, when_idle. rewrite Hidle.
    split; [reflexivity|]. by repeat split.
Qed.

Lemma C8_witness :
  exists msg,
    step CallReleaseFpsStats (new_world (Frame := nat) "cmd" CAP_GSTREAMER)
    = Some (raise (AttributeError msg) (new_world "cmd" CAP_GSTREAMER)).
Proof.
  destruct (C8_stop_before_start_raises_start_never_does
              (new_world (Frame := nat) "cmd" CAP_GSTREAMER) eq_refl)
    as [Hstop _].
  destruct (Hstop eq_refl) as (msg & Hstep & _).
  exists msg. exact Hstep.
Defined.

(** C9. In [read()] the test of the failure event comes first: when the
    event is set at that test, the call raises [CameraConnectionLost]
    and the buffer, empty or not, is left as it is.  The event is never
    cleared, so from then on no call of [read()] returns a frame: the
    frames that were buffered are never delivered, and every later call
    raises at the same test. *)
Theorem C9_failure_is_tested_before_the_buffer
    {Frame : Type} (w : world Frame) :
  consumer w = RFailure ->
  _update_failure (self w) = Some true ->
  let w1 := raise CameraConnectionLost w in
  step Consumer w = Some w1
  /\ _frame_queue (self w1) = _frame_queue (self w)
  /\ forall w2, reachable w1 w2 ->
       returned (trace w2) = returned (trace w)
       /\ _update_failure (self w2) = Some true
       /\ (consumer w2 = RFailure ->
           step Consumer w2 = Some (raise CameraConnectionLost w2)).
Proof.
  intros Hpc Hf w1. split; [|split; [done|]].
  - unfold step, consumer_step. by rewrite Hpc, Hf.
  - intros w2 Hrun.
    assert (seen (returned (trace w)) w2) as (Hf2 & _ & _ & Hr2).
    { eapply (reachable_invariant _ w1 w2); [|exact Hrun|].
      - intros a. apply seen_step.
      - subst w1. by repeat split. }
    repeat split; try done.
    intros Hpc2. unfold step, consumer_step. by rewrite Hpc2, Hf2.
Qed.

Lemma C9_witness :
  Deque.items (_frame_queue (self lost_with_frames)) = [12%nat; 11%nat]
  /\ step Consumer lost_with_frames
     = Some (raise CameraConnectionLost lost_with_frames)
  /\ returned (trace (exec (read_call ++ read_call)
                        (raise CameraConnectionLost lost_with_frames)))
     = returned (trace lost_with_frames).
Proof.
  split; [vm_compute; reflexivity|].
  assert (consumer lost_with_frames = RFailure) as Hpc
    by (vm_compute; reflexivity).
  assert (_update_failure (self lost_with_frames) = Some true) as Hf
    by (vm_compute; reflexivity).
  destruct (C9_failure_is_tested_before_the_buffer lost_with_frames Hpc Hf)
    as (Hstep & _ & Hlater).
  split; [exact Hstep|].
  exact (proj1 (Hlater _ (exec_reachable (read_call ++ read_call) _))).
Defined.

(** C10. A successful [start()] issues exactly one read of the device
    and keeps nothing of it: when it returns, the buffer is empty,
    [frames_read] is still 0 and the capture thread stands at the top of
    its loop.  From then on, whatever the interleaving, every frame in
    the buffer was yielded by a read later than that first one, and
    [frames_read] never exceeds the number of those later reads: the
    frame that [start()] read is neither buffered nor counted. *)
Theorem C10_start_reads_one_frame_and_drops_it
    {Frame : Type} (c : VideoCapture Frame) (cmd : string) (backend : Z)
    (w1 w : world Frame) :
  start (OpenReturns c) (new_world cmd backend) = (None, w1) ->
  reachable w1 w ->
  (is_Some (grabbed_frame (frames c (reads c)))
   /\ device_reads w1 = S (reads c)
   /\ trace w1 = [EvRead]
   /\ Deque.items (_frame_queue (self w1)) = []
   /\ frames_read (self w1) = 0
   /\ _thread (self w1) = Some UStopped)
  /\ Forall (from_loop c (reads c) (device_reads w))
       (Deque.items (_frame_queue (self w)))
  /\ 0 <= frames_read (self w)
       <= Z.of_nat (device_reads w) - Z.of_nat (S (reads c)).
Proof.
  intros Hstart Hrun.
  unfold start in Hstart. simpl in Hstart.
  destruct (opened c) eqn:Ho; simpl in Hstart; [|discriminate].
  destruct (released c) eqn:Hrel; simpl in Hstart; [discriminate|].
  destruct (grabbed_frame (frames c (reads c))) as [f0|] eqn:Hf0;
    [|discriminate].
  injection Hstart as <-.
  split; [by repeat split; try done; eexists|].
  match type of Hrun with
  | reachable ?w1 _ => assert (probe_inv c (reads c) w1) as Hinit
  end.
  { unfold probe_inv, in_hand, uncounted. simpl. eexists.
    split; [reflexivity|]. simpl. repeat split; try done; lia. }
  assert (probe_inv c (reads c) w)
    as (c' & Hs & Hfr & Hlt & Hall & H0 & Hle).
  { eapply (reachable_invariant _ _ w); [|exact Hrun|exact Hinit].
    intros a. apply probe_inv_step. }
  unfold device_reads. rewrite Hs.
  apply Forall_app in Hall. destruct Hall as [_ Hall].
  split; [exact Hall|]. split; [exact H0|].
  unfold uncounted in Hle. repeat case_match; lia.
Qed.

Lemma C10_witness :
  Deque.items (_frame_queue (self two_turns_later)) = [12%nat; 11%nat]
  /\ frames_read (self two_turns_later) = 2
  /\ device_reads two_turns_later = 3%nat
  /\ Forall (from_loop three_frames 0 (device_reads two_turns_later))
       (Deque.items (_frame_queue (self two_turns_later))).
Proof.
  split; [vm_compute; reflexivity|]. split; [vm_compute; reflexivity|].
  split; [vm_compute; reflexivity|].
  assert (start (OpenReturns three_frames) (new_world "cmd" CAP_GSTREAMER)
          = (None, probed)) as Hstart by (vm_compute; reflexivity).
  exact (proj1 (proj2
    (C10_start_reads_one_frame_and_drops_it three_frames _ _ probed
       two_turns_later Hstart (exec_reachable _ probed)))).
Defined.

(** * Further properties *)

(** ** The deque at any depth *)

Section DequeMore.
Context {Frame : Type}.
Implicit Types (d : Deque.deque Frame) (fs : list Frame).

Lemma take_cons_take (n : nat) (x : Frame) fs :
  take n (x :: take n fs) = take n (x :: fs).
Proof.
  destruct n as [|m]; [done|]. simpl. f_equal.
  rewrite take_take. f_equal. lia.
Qed.

Lemma pops_all_rev (l : list Frame) (n : nat) :
  pops (length l) (Deque.Build (reverse l) n) = inr (l, Deque.Build [] n).
Proof.
  induction l as [|x l IH]; [done|].
  simpl. unfold Deque.pop. simpl.
  rewrite reverse_involutive. simpl.
  rewrite <- (reverse_involutive l) at 2. rewrite reverse_involutive.
  by rewrite IH.
Qed.

End DequeMore.

(** X1. Whatever its depth, a deque within its depth that receives
    the frames [fs] through [appendleft] holds afterwards the newest
    [maxlen] of all it was given, the newest on the left; with depth 0
    it holds nothing. *)
Theorem X1_pushes_keep_the_newest
    {Frame : Type} (d : Deque.deque Frame) (fs : list Frame) :
  (Deque.len d <= Deque.maxlen d)%nat ->
  Deque.items (Deque.pushes fs d)
    = take (Deque.maxlen d) (reverse fs ++ Deque.items d)
  /\ Deque.maxlen (Deque.pushes fs d) = Deque.maxlen d
  /\ (Deque.maxlen d = 0%nat -> Deque.items (Deque.pushes fs d) = []).
Proof.
  intros Hd.
  assert (Deque.items (Deque.pushes fs d)
          = take (Deque.maxlen d) (reverse fs ++ Deque.items d)) as Hitems.
  { induction fs as [|x fs IH] using rev_ind.
    - simpl. unfold Deque.pushes. simpl. by rewrite take_ge.
    - rewrite pushes_snoc. unfold Deque.appendleft at 1. simpl.
      rewrite maxlen_pushes, IH, reverse_app. simpl.
      apply take_cons_take. }
  split; [exact Hitems|]. split; [apply maxlen_pushes|].
  intros H0. rewrite Hitems, H0. apply take_0.
Qed.

Lemma X1_witness :
  Deque.items (Deque.pushes [4%nat; 5%nat; 6%nat; 7%nat]
                 (Deque.Build [3%nat; 2%nat] 3)) = [7%nat; 6%nat; 5%nat].
Proof.
  apply (X1_pushes_keep_the_newest (Deque.Build [3%nat; 2%nat] 3)
           [4%nat; 5%nat; 6%nat; 7%nat]).
  unfold Deque.len. simpl. lia.
Defined.

(** X2. First in, first out: popping a deque as many times as it holds
    elements yields them from the oldest to the newest and leaves it
    empty, and one more [pop()] raises [IndexError].  So frames pushed
    into a new deque, no more of them than its depth, come back out in
    the order they went in. *)
Theorem X2_pops_return_frames_in_push_order
    {Frame : Type} (n : nat) (d : Deque.deque Frame) (fs : list Frame) :
  (length fs <= n)%nat ->
  pops (Deque.len d) d
    = inr (reverse (Deque.items d), Deque.Build [] (Deque.maxlen d))
  /\ (exists msg, pops (S (Deque.len d)) d = inl (IndexError msg))
  /\ pops (length fs) (Deque.pushes fs (Deque.new n))
     = inr (fs, Deque.new n).
Proof.
  intros Hn.
  assert (forall d0 : Deque.deque Frame,
            pops (Deque.len d0) d0
            = inr (reverse (Deque.items d0),
                   Deque.Build [] (Deque.maxlen d0))) as Hall.
  { intros [l m]. unfold Deque.len. simpl.
    pose proof (pops_all_rev (reverse l) m) as H.
    by rewrite reverse_involutive, length_reverse in H. }
  split; [apply Hall|]. split.
  - destruct d as [l m]. unfold Deque.len. simpl.
    assert (exists l', l = reverse l') as [l' ->]
      by (exists (reverse l); by rewrite reverse_involutive).
    rewrite length_reverse. clear. rename l' into l.
    induction l as [|x l IH].
    + simpl. by eexists.
    + destruct IH as [msg IH]. exists msg.
      change (pops (S (length (x :: l))) (Deque.Build (reverse (x :: l)) m))
        with (match Deque.pop (Deque.Build (reverse (x :: l)) m) with
              | inl e => inl e
              | inr (y, d') =>
                match pops (S (length l)) d' with
                | inl e => inl e
                | inr (xs, d'') => inr (y :: xs, d'')
                end
              end).
      unfold Deque.pop. simpl. rewrite reverse_involutive. simpl.
      by rewrite IH.
  - destruct (X1_pushes_keep_the_newest (Deque.new n) fs) as (Hi & Hm & _).
    { unfold Deque.len. simpl. lia. }
    specialize (Hall (Deque.pushes fs (Deque.new n))).
    unfold Deque.len in Hall. rewrite Hi, Hm in Hall. simpl in Hall.
    rewrite app_nil_r, take_ge in Hall by (rewrite length_reverse; lia).
    by rewrite length_reverse, reverse_involutive in Hall.
Qed.

Lemma X2_witness :
  pops 3 (Deque.pushes [1%nat; 2%nat; 3%nat] (Deque.new 5))
    = inr ([1%nat; 2%nat; 3%nat], Deque.new 5).
Proof.
  apply (X2_pops_return_frames_in_push_order 5 (Deque.new 5)
           [1%nat; 2%nat; 3%nat]).
  simpl. lia.
Defined.

(** ** read and the buffer *)

Section ReadFacts.
Context {Frame : Type}.
Implicit Types (w : world Frame) (a : action).

Lemma len_pos_appendleft (f : Frame) (d : Deque.deque Frame) :
  (0 < Deque.maxlen d)%nat -> (0 < Deque.len (Deque.appendleft f d))%nat.
Proof.
  intros Hm. unfold Deque.len, Deque.appendleft. simpl.
  destruct (Deque.maxlen d); simpl; lia.
Qed.

Lemma pop_nonempty (d : Deque.deque Frame) :
  (0 < Deque.len d)%nat -> exists f q, Deque.pop d = inr (f, q).
Proof.
  unfold Deque.len, Deque.pop. intros Hl.
  destruct (reverse (Deque.items d)) as [|x r] eqn:E; [|by eauto].
  apply (f_equal length) in E. rewrite length_reverse in E.
  simpl in E. lia.
Qed.

Lemma pop_safe_step a w w' : step a w = Some w' -> pop_safe w -> pop_safe w'.
Proof.
  unfold pop_safe. intros Hstep (Hm & Hp & Htr).
  destruct a; step_inv Hstep; prune;
    repeat split; intros; try done; try congruence; try (by eauto).
  all: try (constructor; [intros; discriminate|done]).
  all: try (by apply Nat.ltb_lt).
  all: try match goal with
           | H : Deque.pop ?d = inl _ |- _ =>
             destruct (pop_nonempty d) as (f & q & Hq); [by auto|congruence]
           | H : Deque.pop ?d = inr _ |- _ =>
             pose proof (maxlen_apply d Deque.Pop) as Hm'; simpl in Hm';
             rewrite H in Hm'; congruence
           end.
  all: try (apply len_pos_appendleft; rewrite Hm; unfold _queue_depth; lia).
Qed.

Lemma pop_safe_start env cmd backend :
  pop_safe (snd (start env (new_world (Frame := Frame) cmd backend))).
Proof.
  unfold pop_safe, start.
  destruct env as [| |c]; simpl; try (by repeat split).
  destruct (opened c); simpl; [|by repeat split].
  destruct (grabbed_frame _); simpl; repeat split; try done;
    by repeat constructor.
Qed.

End ReadFacts.

(** X3. [read()] never fails on the buffer.  In every state of a
    stream, started or not, under every schedule: when the consumer
    stands at [pop()], the buffer holds a frame and the statement
    returns it, though the capture thread may have pushed in between;
    and no call has ever ended in [IndexError]. *)
Theorem X3_read_never_pops_an_empty_buffer
    {Frame : Type} (env : open_outcome Frame) (cmd : string) (backend : Z)
    (sched : list action) :
  let w := exec sched (snd (start env (new_world cmd backend))) in
  (consumer w = RPop ->
   exists f q w',
     Deque.pop (_frame_queue (self w)) = inr (f, q)
     /\ step Consumer w = Some w'
     /\ trace w' = EvReturn f :: trace w
     /\ consumer w' = Idle)
  /\ Forall (fun e => forall msg, e <> EvRaise (IndexError msg)) (trace w).
Proof.
  intros w.
  assert (pop_safe w) as (_ & Hp & Htr).
  { eapply (reachable_invariant pop_safe); [|apply exec_reachable|].
    - intros a. apply pop_safe_step.
    - apply pop_safe_start. }
  split; [|exact Htr].
  intros Hpc. destruct (pop_nonempty _ (Hp Hpc)) as (f & q & Hq).
  exists f, q. eexists. split; [exact Hq|].
  unfold step, consumer_step. rewrite Hpc, Hq. by repeat split.
Qed.

(** ** The order of delivery *)

Section OrderFacts.
Context {Frame : Type}.
Implicit Types (w : world Frame) (a : action) (c : VideoCapture Frame).

Lemma pop_keeps (d q : Deque.deque Frame) (f : Frame) :
  Deque.pop d = inr (f, q) ->
  Deque.items d = Deque.items q ++ [f]
  /\ Deque.maxlen q = Deque.maxlen d
  /\ (Deque.len q <= Deque.len d)%nat.
Proof.
  intros Hpop. pose proof (pop_items _ _ _ Hpop) as Hi.
  split; [exact Hi|]. unfold Deque.len. rewrite Hi, length_app. simpl.
  split; [|lia].
  unfold Deque.pop in Hpop. destruct (reverse (Deque.items d));
    [discriminate|]. by injection Hpop as _ <-.
Qed.

Lemma loop_reads_grow (n0 m : nat) :
  (n0 < m)%nat -> loop_reads n0 (S m) = loop_reads n0 m ++ [m].
Proof.
  intros Hlt. unfold loop_reads.
  replace (S m - S n0)%nat with (S (m - S n0)) by lia.
  rewrite seq_S. do 2 f_equal. lia.
Qed.

(** what [appendleft] does to a deque of depth two, oldest first *)
Lemma appendleft_in_order (f : Frame) (d : Deque.deque Frame) :
  Deque.maxlen d = _queue_depth ->
  (Deque.len d <= _queue_depth)%nat ->
  exists k, reverse (Deque.items (Deque.appendleft f d))
            = drop k (reverse (Deque.items d) ++ [f]).
Proof.
  unfold Deque.len, Deque.appendleft, _queue_depth. intros -> Hl. simpl.
  destruct (Deque.items d) as [|x [|y [|z l]]]; simpl in *; try lia.
  - by exists 0%nat.
  - by exists 0%nat.
  - by exists 1%nat.
Qed.

Lemma len_appendleft_depth (f : Frame) (d : Deque.deque Frame) :
  Deque.maxlen d = _queue_depth ->
  (Deque.len (Deque.appendleft f d) <= _queue_depth)%nat.
Proof. intros <-. apply len_appendleft. Qed.

Lemma order_inv_step c n0 a w w' :
  step a w = Some w' -> order_inv c n0 w -> order_inv c n0 w'.
Proof.
  unfold order_inv, in_order, in_hand.
  intros Hstep (c' & idx & Hs & Hfr & Hlt & Hm & Hl & Hsub & Hall).
  destruct a; step_inv Hstep;
    try (exists c', idx; repeat split; simpl; by eauto).
  all: try match goal with
           | H : Deque.pop _ = inr _ |- _ =>
             apply pop_keeps in H; destruct H as (Hi & Hm' & Hl');
             exists c', idx; rewrite Hi, reverse_app in Hall;
             simpl in Hall;
             rewrite reverse_cons, <- app_assoc; simpl;
             repeat split; try done; try congruence; try lia
           end.
  all: try (exists (VideoCapture_release c'), idx; repeat split; simpl;
            by eauto).
  - eexists _, (idx ++ [reads c']). split; [reflexivity|]. simpl.
    repeat split; try done; try lia.
    + rewrite (loop_reads_grow n0 (reads c') Hlt).
      by apply sublist_app.
    + rewrite app_nil_r in Hall. rewrite app_assoc.
      apply Forall2_app; [exact Hall|].
      constructor; [by rewrite <- Hfr|constructor].
  - eexists _, idx. split; [reflexivity|]. simpl.
    repeat split; try done; try lia.
    rewrite (loop_reads_grow n0 (reads c') Hlt).
    by apply sublist_inserts_r.
  - eexists _, idx. split; [reflexivity|]. simpl.
    repeat split; try done; try lia.
    rewrite (loop_reads_grow n0 (reads c') Hlt).
    by apply sublist_inserts_r.
  - destruct (appendleft_in_order frame (_frame_queue (self w)) Hm Hl)
      as [k Hk].
    unfold Deque.appendleft in Hk. simpl in Hk.
    apply Forall2_app_inv_r in Hall.
    destruct Hall as (i1 & i2 & Hall1 & Hall2 & ->).
    exists c', (i1 ++ drop k i2). split; [done|].
    repeat split; try done.
    + apply len_appendleft_depth; done.
    + etrans; [|exact Hsub].
      apply sublist_app; [done|apply sublist_drop].
    + rewrite app_nil_r, Hk.
      apply Forall2_app; [exact Hall1|]. by apply Forall2_drop.
Qed.

Lemma increasing_sublist (l1 l2 : list nat) :
  l1 `sublist_of` l2 -> increasing l2 -> increasing l1.
Proof.
  induction 1 as [|x l1 l2 Hsub IH|x l1 l2 Hsub IH]; simpl; [done| |].
  - intros [Hx Hl2]. split; [|by apply IH].
    apply Forall_forall. intros y Hy.
    rewrite Forall_forall in Hx. apply Hx.
    by eapply elem_of_sublist.
  - intros [_ Hl2]. by apply IH.
Qed.

Lemma increasing_seq (a n : nat) : increasing (seq a n).
Proof.
  revert a. induction n as [|n IH]; intros a; simpl; [done|].
  split; [|apply IH].
  apply Forall_forall. intros y Hy. apply elem_of_seq in Hy. lia.
Qed.

Lemma order_inv_start c cmd backend w1 :
  start (OpenReturns c) (new_world cmd backend) = (None, w1) ->
  order_inv c (reads c) w1.
Proof.
  unfold start. simpl.
  destruct (opened c); simpl; [|discriminate].
  destruct (grabbed_frame _); [|discriminate].
  intros [= <-]. unfold order_inv. eexists _, [].
  split; [reflexivity|]. simpl. split_and!; try done; try lia.
  all: first [ apply sublist_nil_l
             | unfold Deque.len; simpl; unfold _queue_depth; lia
             | unfold in_order, in_hand; simpl; constructor ].
Qed.

End OrderFacts.

(** X4. [read()] hands out frames in the order of their capture, and
    none twice: in every state of a started stream, the frames returned
    so far, from the first to the last, are what reads of the capture
    loop with increasing numbers yielded, all of them after the read of
    [start()].  Frames can be skipped (the queue drops them), never
    reordered or repeated. *)
Theorem X4_frames_are_delivered_in_capture_order
    {Frame : Type} (c : VideoCapture Frame) (cmd : string) (backend : Z)
    (w1 w : world Frame) :
  start (OpenReturns c) (new_world cmd backend) = (None, w1) ->
  reachable w1 w ->
  exists idx : list nat,
    increasing idx
    /\ Forall (fun i => (reads c < i < device_reads w)%nat) idx
    /\ Forall2 (fun i f => grabbed_frame (frames c i) = Some f)
         idx (reverse (returned (trace w))).
Proof.
  intros Hstart Hrun.
  assert (order_inv c (reads c) w)
    as (c' & idx & Hs & Hfr & Hlt & _ & _ & Hsub & Hall).
  { eapply (reachable_invariant (order_inv c (reads c)));
      [|exact Hrun|by eapply order_inv_start].
    intros a. apply order_inv_step. }
  unfold in_order in Hall. apply Forall2_app_inv_r in Hall.
  destruct Hall as (i1 & i2 & Hall1 & _ & ->).
  assert (i1 `sublist_of` loop_reads (reads c) (reads c')) as Hsub1.
  { etrans; [|exact Hsub]. apply sublist_inserts_r. done. }
  exists i1. split; [|split; [|exact Hall1]].
  - eapply increasing_sublist; [exact Hsub1|apply increasing_seq].
  - unfold device_reads. rewrite Hs. apply Forall_forall. intros i Hi.
    apply (elem_of_sublist _ _ _ Hi) in Hsub1.
    unfold loop_reads in Hsub1. apply elem_of_seq in Hsub1. lia.
Qed.

(** ** stop *)

Section StopFacts.
Context {Frame : Type}.
Implicit Types (w : world Frame) (a : action) (pc : update_pc Frame).

(** One step with [_stopped] set: a turn of the capture thread brings
    it nearer to its return, and only a thread that stood at the read
    reads. *)
Lemma stopping_step a w w' pc :
  step a w = Some w' ->
  _thread (self w) = Some pc -> _stopped (self w) = true ->
  exists pc',
    _thread (self w') = Some pc'
    /\ _stopped (self w') = true
    /\ (togo pc' + (if is_capture a then 1 else 0) <= togo pc)%nat
    /\ (device_reads w' + at_read pc' <= device_reads w + at_read pc)%nat.
Proof.
  unfold device_reads. intros Hstep Ht Hs.
  destruct a; step_inv Hstep;
    eexists; (split; [first [eassumption | reflexivity]|]);
    simpl; split_and!; try done; try lia.
Qed.

Lemma stopping_blocked w pc :
  step Capture w = None -> _thread (self w) = Some pc -> togo pc = 0%nat.
Proof.
  unfold step. intros Hstep Ht. rewrite Ht in Hstep.
  destruct pc; simpl in *; repeat case_match; simplify_eq; done.
Qed.

Lemma stopping_exec sched w pc :
  _thread (self w) = Some pc -> _stopped (self w) = true ->
  exists pc',
    _thread (self (exec sched w)) = Some pc'
    /\ _stopped (self (exec sched w)) = true
    /\ (togo pc' <= togo pc - captures sched)%nat
    /\ (device_reads (exec sched w) + at_read pc'
        <= device_reads w + at_read pc)%nat.
Proof.
  revert w pc. induction sched as [|a sched IH]; intros w pc Ht Hs.
  - exists pc. unfold captures. simpl. split_and!; try done; lia.
  - rewrite exec_cons. destruct (step a w) as [w'|] eqn:E; simpl.
    + destruct (stopping_step a w w' pc E Ht Hs) as (pc1 & Ht1 & Hs1 & Hg & Hr).
      destruct (IH w' pc1 Ht1 Hs1) as (pc2 & Ht2 & Hs2 & Hg2 & Hr2).
      exists pc2. split_and!; try done; [|lia].
      unfold captures in *. simpl. destruct (is_capture a); simpl; lia.
    + destruct (IH w pc Ht Hs) as (pc2 & Ht2 & Hs2 & Hg2 & Hr2).
      exists pc2. split_and!; try done.
      unfold captures in *. simpl. destruct a; simpl; try lia.
      rewrite (stopping_blocked w pc E Ht) in *. lia.
Qed.

End StopFacts.

(** X5. Once [_stopped] is set the capture loop ends within one read:
    whatever the other threads do, the capture thread has returned after
    at most four more of its own statements, and it reads the device
    once more only if it had already passed the test of the flag. *)
Theorem X5_capture_loop_ends_within_one_read
    {Frame : Type} (w : world Frame) (pc : update_pc Frame)
    (sched : list action) :
  _thread (self w) = Some pc ->
  _stopped (self w) = true ->
  (togo pc <= captures sched)%nat ->
  let w' := exec sched w in
  (togo pc <= 4)%nat
  /\ _thread (self w') = Some UReturned
  /\ (device_reads w' <= device_reads w + at_read pc)%nat
  /\ (pc <> URead -> device_reads w' = device_reads w).
Proof.
  intros Ht Hs Hk w'.
  destruct (stopping_exec sched w pc Ht Hs) as (pc' & Ht' & _ & Hg & Hr).
  split; [destruct pc; simpl; lia|].
  assert (togo pc' = 0%nat) as H0 by lia.
  assert (pc' = UReturned) as -> by (destruct pc'; simpl in H0; done).
  split; [exact Ht'|]. cbn [at_read] in Hr. subst w'.
  split; [lia|].
  intros Hne.
  assert (at_read pc = 0%nat) as Hz by (destruct pc; done).
  assert (device_reads w <= device_reads (exec sched w))%nat; [|lia].
  clear -sched. revert w. induction sched as [|a sched IH]; intros w; [done|].
  rewrite exec_cons. etrans; [|apply IH].
  destruct (step a w) as [w1|] eqn:E; simpl; [|done].
  unfold device_reads. destruct a; step_inv E; simpl; lia.
Qed.

Section StopMore.
Context {Frame : Type}.
Implicit Types (w : world Frame) (a : action).

(** The capture thread and the timers leave the consumer where it is
    and release nothing. *)
Lemma background_step a w w' :
  background a = true -> step a w = Some w' ->
  consumer w' = consumer w
  /\ releases (trace w') = releases (trace w)
  /\ (is_Some (_stream (self w)) -> is_Some (_stream (self w'))).
Proof.
  unfold releases. intros Hb Hstep.
  destruct a; try discriminate; step_inv Hstep; split_and!; try done;
    intros [? ?]; by eauto.
Qed.

Lemma background_exec between w :
  forallb background between = true ->
  consumer (exec between w) = consumer w
  /\ releases (trace (exec between w)) = releases (trace w)
  /\ (is_Some (_stream (self w)) ->
      is_Some (_stream (self (exec between w)))).
Proof.
  revert w. induction between as [|a l IH]; intros w Hb; [done|].
  simpl in Hb. apply andb_true_iff in Hb. destruct Hb as [Ha Hl].
  rewrite exec_cons. destruct (step a w) as [w'|] eqn:E; simpl; [|by apply IH].
  destruct (background_step a w w' Ha E) as (Hc & Hr & Hs).
  destruct (IH w' Hl) as (Hc' & Hr' & Hs').
  rewrite Hc', Hr', Hc, Hr. auto.
Qed.

End StopMore.

(** X6. [stop()] completes and releases the device once.  Called on a
    stream that has a capture thread and a device, with the capture
    thread given the turns it needs while the consumer waits at the
    [join] (four at most, none if the loop had already returned, as
    after a lost connection), [stop()] runs to its end: the flag is set,
    the thread has returned, the device is released, and the history has
    one release more than before, as its last event. *)
Theorem X6_stop_completes_and_releases_once
    {Frame : Type} (w : world Frame) (pc : update_pc Frame)
    (c : VideoCapture Frame) (between : list action) :
  consumer w = Idle ->
  _thread (self w) = Some pc ->
  _stream (self w) = Some c ->
  forallb background between = true ->
  (togo pc <= captures between)%nat ->
  let w' := exec (stop_call between) w in
  consumer w' = Idle
  /\ _stopped (self w') = true
  /\ _thread (self w') = Some UReturned
  /\ device_released w' = true
  /\ head (trace w') = Some EvRelease
  /\ releases (trace w') = S (releases (trace w)).
Proof.
  intros Hidle Ht Hs Hb Hk w'. subst w'. unfold stop_call.
  rewrite exec_app, exec_app.
  set (w1 := exec [CallStop; Consumer] w).
  assert (consumer w1 = SJoin /\ _stopped (self w1) = true
          /\ _thread (self w1) = Some pc /\ _stream (self w1) = Some c
          /\ trace w1 = trace w) as (Hc1 & Hs1 & Ht1 & Hst1 & Htr1).
  { subst w1. unfold exec. simpl. unfold when_idle. rewrite Hidle. simpl.
    by split_and!. }
  destruct (background_exec between w1 Hb) as (Hc2 & Hr2 & Hst2).
  destruct (stopping_exec between w1 pc Ht1 Hs1) as (pc' & Ht2 & Hs2 & Hg & _).
  clearbody w1. remember (exec between w1) as w2 eqn:Ew2. clear Ew2.
  assert (pc' = UReturned) as ->.
  { assert (togo pc' = 0%nat) as H0 by lia. by destruct pc'. }
  destruct Hst2 as [c2 Hc2s]; [by eexists|].
  unfold exec. simpl. unfold consumer_step.
  rewrite Hc2, Hc1, Ht2. simpl. rewrite Hc2s. simpl.
  unfold device_released. simpl.
  split_and!; try done.
  unfold releases in *. simpl. by rewrite Hr2, Htr1.
Qed.

(** X7. [stop()] on a stream that has no capture object (never
    started, or started when the constructor raised or returned
    [None]) does not clean up quietly: it sets [_stopped], skips the
    [join] and raises [AttributeError] at the [release]. *)
Theorem X7_stop_without_a_capture_raises
    {Frame : Type} (w : world Frame) :
  consumer w = Idle ->
  _thread (self w) = None ->
  _stream (self w) = None ->
  let w' := exec [CallStop; Consumer; Consumer; Consumer] w in
  (exists msg, trace w' = EvRaise (AttributeError msg) :: trace w)
  /\ consumer w' = Idle
  /\ _stopped (self w') = true
  /\ (forall cmd backend,
        w = new_world cmd backend ->
        snd (start OpenRaises w) = w
        /\ _stream (self (snd (start OpenNone w))) = None
        /\ _thread (self (snd (start OpenNone w))) = None).
Proof.
  intros Hidle Ht Hs w'. subst w'.
  unfold exec. simpl. unfold when_idle. rewrite Hidle. simpl.
  unfold consumer_step. simpl. rewrite Ht. simpl. rewrite Hs. simpl.
  split_and!; try done; first [by eexists|by intros cmd backend ->].
Qed.

(** X8. [read()] on a stream that was not started, or whose [start()]
    failed, does not wait for a frame: the failure event does not exist
    yet and the call raises [AttributeError] at its first statement. *)
Theorem X8_read_before_start_raises
    {Frame : Type} (w : world Frame) (env : open_outcome Frame) :
  consumer w = Idle ->
  _update_failure (self w) = None ->
  let read_on w0 := exec [CallRead; Consumer] w0 in
  (exists msg, trace (read_on w) = EvRaise (AttributeError msg) :: trace w)
  /\ consumer (read_on w) = Idle
  /\ (fst (start env w) <> None ->
      let w1 := snd (start env w) in
      (exists msg,
         trace (read_on w1) = EvRaise (AttributeError msg) :: trace w1)
      /\ consumer (read_on w1) = Idle).
Proof.
  intros Hidle Hf read_on. subst read_on. simpl.
  assert (forall w0 : world Frame,
            consumer w0 = Idle -> _update_failure (self w0) = None ->
            (exists msg, trace (exec [CallRead; Consumer] w0)
                         = EvRaise (AttributeError msg) :: trace w0)
            /\ consumer (exec [CallRead; Consumer] w0) = Idle) as Hread.
  { intros w0 Hi H0. unfold exec. simpl. unfold when_idle. rewrite Hi.
    simpl. unfold consumer_step. simpl. rewrite H0. simpl.
    split; [by eexists|done]. }
  destruct (Hread w Hidle Hf) as [H1 H2].
  split; [exact H1|]. split; [exact H2|].
  intros Hfail. apply Hread.
  - unfold start. destruct env as [| |c]; simpl; try done.
    destruct (opened c); simpl; [|done]. by destruct (grabbed_frame _).
  - unfold start in *. destruct env as [| |c]; simpl in *; try done.
    destruct (opened c); simpl in *; [|done].
    by destruct (grabbed_frame _).
Qed.

(** ** read after stop *)

Section SpinFacts.
Context {Frame : Type}.
Implicit Types (w : world Frame) (a : action).

Lemma spinning_step tr a w w' :
  step a w = Some w' -> spinning tr w -> spinning tr w'.
Proof.
  unfold spinning. intros Hstep (Ht & Hf & Hq & Hc & Htr).
  destruct a; step_inv Hstep; destruct Hc; simplify_eq;
    split_and!; try done; try (by left); try (by right).
  all: match goal with
       | H : (0 <? Deque.len _)%nat = true |- _ =>
         unfold Deque.len in H; rewrite Hq in H; discriminate
       end.
Qed.

End SpinFacts.

(** X9. After [stop()] a [read()] can wait for ever.  With the capture
    thread returned, no failure set and the buffer empty, a call of
    [read()] is entered and then only goes round its two tests: at every
    later moment the consumer is at one of them and can take its next
    step, and the history has gained nothing, neither a frame returned
    nor an exception. *)
Theorem X9_read_after_stop_never_returns
    {Frame : Type} (w : world Frame) :
  consumer w = Idle ->
  _thread (self w) = Some UReturned ->
  _update_failure (self w) = Some false ->
  Deque.items (_frame_queue (self w)) = [] ->
  exists w1,
    step CallRead w = Some w1
    /\ forall w2, reachable w1 w2 ->
         (consumer w2 = RFailure \/ consumer w2 = RLen)
         /\ trace w2 = trace w
         /\ is_Some (step Consumer w2).
Proof.
  intros Hidle Ht Hf Hq. eexists. split.
  { unfold step, when_idle. by rewrite Hidle. }
  intros w2 Hrun.
  assert (spinning (trace w) w2) as (Ht2 & Hf2 & Hq2 & Hc2 & Htr2).
  { eapply (reachable_invariant (spinning (trace w))); [|exact Hrun|].
    - intros a. apply spinning_step.
    - unfold spinning. simpl. split_and!; try done. by left. }
  split; [exact Hc2|]. split; [exact Htr2|].
  unfold step, consumer_step. destruct Hc2 as [-> | ->].
  - rewrite Hf2. by eexists.
  - by eexists.
Qed.

(** ** The timers *)

Section TimerFacts.
Context {Frame : Type}.
Implicit Types (w : world Frame) (a : action).

Lemma leaked_step i a w w' : step a w = Some w' -> leaked i w -> leaked i w'.
Proof.
  unfold leaked. intros Hstep (t & j & Hi & Ht & Hj & Hlt).
  destruct a; step_inv Hstep;
    try (exists t, j; split_and!; by eauto).
  - exists t, (length (timers w)). split_and!; try done.
    + by apply lookup_app_l_Some.
    + apply lookup_lt_Some in Hi. lia.
  - exists t, j. split_and!; try done.
    rewrite list_lookup_alter_ne; [done|lia].
Qed.

Lemma cancelled_step i a w w' :
  step a w = Some w' -> cancelled i w -> cancelled i w'.
Proof.
  unfold cancelled. intros Hstep (t & Hi & Ht).
  destruct a; step_inv Hstep; try (exists t; split; by eauto).
  - exists t. split; [|done]. by apply lookup_app_l_Some.
  - match goal with
    | |- context [alter cancel ?n _] =>
      destruct (decide (n = i)) as [->|Hne]
    end.
    + eexists. rewrite list_lookup_alter_eq, Hi. simpl. by split.
    + exists t. by rewrite list_lookup_alter_ne.
Qed.

Lemma not_counting_step x y a w w' :
  is_start_counting a = false ->
  step a w = Some w' -> not_counting x y w -> not_counting x y w'.
Proof.
  unfold not_counting. intros Ha Hstep (Hts & Hr & Hd).
  destruct a; try discriminate; step_inv Hstep; split_and!; try done;
    try congruence.
  all: try (by rewrite Hts).
  all: match goal with
       | H : timers _ !! _ = Some _ |- _ => by rewrite Hts in H
       end.
Qed.

End TimerFacts.

(** X10. A second [start_counting_fps] loses the first timer.  After
    two calls in a row the timer the first call created is no longer
    the one [fps_timer] names, and it never is again; whatever is
    called afterwards, [release_fps_stats] included, that timer remains
    able to tick. *)
Theorem X10_replaced_timer_keeps_ticking
    {Frame : Type} (w w' : world Frame) :
  let i := length (timers w) in
  reachable (start_counting_fps (start_counting_fps w)) w' ->
  fps_timer (self w') <> Some i
  /\ exists w'', step (Tick i) w' = Some w''.
Proof.
  intros i Hrun.
  assert (leaked i w') as (t & j & Hi & Ht & Hj & Hlt).
  { eapply (reachable_invariant (leaked i)); [|exact Hrun|].
    - intros a. apply leaked_step.
    - unfold leaked, start_counting_fps. simpl.
      exists {| started := true; finished := false |}, (S i).
      split_and!; try done; try lia.
      + rewrite lookup_app_l by (rewrite length_app; simpl; lia).
        by rewrite list_lookup_middle.
      + rewrite length_app. simpl. f_equal. lia. }
  split; [rewrite Hj; intros [= ->]; lia|].
  unfold step. rewrite Hi, Ht. by eexists.
Qed.

(** X11. [release_fps_stats] cancels for good and can be repeated.  On
    a stream whose [fps_timer] names a timer, the call succeeds; a
    second call succeeds as well and changes nothing; and the timer
    never ticks again, whatever is called afterwards. *)
Theorem X11_release_cancels_for_good
    {Frame : Type} (w : world Frame) (j : nat) :
  fps_timer (self w) = Some j ->
  (j < length (timers w))%nat ->
  exists w1,
    release_fps_stats w = inr w1
    /\ release_fps_stats w1 = inr w1
    /\ forall w2, reachable w1 w2 -> step (Tick j) w2 = None.
Proof.
  intros Hj Hlt. eexists. split.
  { unfold release_fps_stats. rewrite Hj. reflexivity. }
  split.
  - unfold release_fps_stats. simpl. rewrite Hj. f_equal.
    unfold with_timers. simpl. f_equal.
    rewrite list_alter_alter_eq. apply list_alter_ext; [|done].
    by intros [s f] _.
  - intros w2 Hrun.
    assert (cancelled j w2) as (t & Ht & Hfin).
    { eapply (reachable_invariant (cancelled j)); [|exact Hrun|].
      - intros a. apply cancelled_step.
      - unfold cancelled. simpl.
        destruct (lookup_lt_is_Some_2 (timers w) j Hlt) as [t Ht].
        eexists. rewrite list_lookup_alter_eq, Ht. simpl. by split. }
    unfold step. rewrite Ht. unfold ticking. rewrite Hfin.
    by rewrite andb_false_r.
Qed.

(** X12. The snapshots are written by the timers only.  On a stream,
    started or not, on which [start_counting_fps] is never called, no
    timer exists and [last_frames_read] and [last_frames_displayed]
    keep their initial 0 under every schedule, however many frames are
    read and displayed. *)
Theorem X12_without_a_timer_the_snapshots_stay
    {Frame : Type} (env : open_outcome Frame) (cmd : string) (backend : Z)
    (sched : list action) :
  forallb (fun a => negb (is_start_counting a)) sched = true ->
  let w := exec sched (snd (start env (new_world cmd backend))) in
  last_frames_read (self w) = 0
  /\ last_frames_displayed (self w) = 0
  /\ timers w = [].
Proof.
  intros Hs w.
  assert (not_counting 0 0 w) as (Ht & Hr & Hd); [|done].
  subst w.
  assert (not_counting 0 0 (snd (start env (new_world cmd backend)))) as H0.
  { unfold not_counting, start. destruct env as [| |c]; simpl; try done.
    destruct (opened c); simpl; [|done]. by destruct (grabbed_frame _). }
  revert H0. generalize (snd (start env (new_world cmd backend))).
  induction sched as [|a l IH]; intros w0 H0; [done|].
  simpl in Hs. apply andb_true_iff in Hs. destruct Hs as [Ha Hl].
  rewrite exec_cons. destruct (step a w0) as [w1|] eqn:E; simpl;
    [|by apply IH].
  apply IH; [done|].
  eapply not_counting_step; [|exact E|exact H0].
  by apply negb_true_iff.
Qed.

(** ** start, again *)

(** X13. [start()] succeeds exactly when the constructor returns a
    capture that is open and its first read yields a frame; it then
    leaves a failure event that is clear and a capture thread at the top
    of its loop, and has released nothing. *)
Theorem X13_start_succeeds_exactly_on_a_first_frame
    {Frame : Type} (env : open_outcome Frame) (w : world Frame) :
  (fst (start env w) = None <->
   exists c f, env = OpenReturns c /\ opened c = true
               /\ grabbed_frame (fst (VideoCapture_read c)) = Some f)
  /\ (fst (start env w) = None ->
      let w' := snd (start env w) in
      _update_failure (self w') = Some false
      /\ _thread (self w') = Some UStopped
      /\ device_released w' = false
      /\ _stopped (self w') = _stopped (self w)
      /\ _frame_queue (self w') = _frame_queue (self w)).
Proof.
  unfold start, VideoCapture_read, device_released.
  destruct env as [| |c]; simpl.
  - split; [|done]. split; [done|]. by intros (c & f & ? & _).
  - split; [|done]. split; [done|]. by intros (c & f & ? & _).
  - destruct (opened c) eqn:Ho; simpl.
    + destruct (released c) eqn:Hr; simpl.
      * split; [|done]. split; [done|].
        intros (c0 & f & [= <-] & _ & Hf). rewrite Ho, Hr in Hf. done.
      * destruct (grabbed_frame (frames c (reads c))) as [f|] eqn:Hf; simpl.
        -- split; [|done]. split; [|done]. intros _. exists c, f.
           rewrite Ho, Hr. simpl. by rewrite Hf.
        -- split; [|done]. split; [done|].
           intros (c0 & f & [= <-] & _ & Hf'). rewrite Ho, Hr in Hf'.
           simpl in Hf'. congruence.
    + split; [|done]. split; [done|].
      intros (c0 & f & [= <-] & Ho' & _). congruence.
Qed.

(** X14. A [start()] that fails touches nothing but [_stream]: every
    other attribute, the timers and the consumer are as before, no
    thread exists that did not, and nothing is released.  In
    particular, when the first read fails the capture stays in
    [_stream], open and not released; [__enter__] having raised,
    [__exit__] will not run, so only an explicit [stop()] releases
    it. *)
Theorem X14_failed_start_touches_only_the_stream
    {Frame : Type} (env : open_outcome Frame) (w : world Frame) (e : exn) :
  fst (start env w) = Some e ->
  let w' := snd (start env w) in
  set_stream None (self w') = set_stream None (self w)
  /\ timers w' = timers w
  /\ consumer w' = consumer w
  /\ releases (trace w') = releases (trace w)
  /\ (forall c, env = OpenReturns c -> opened c = true ->
      released c = false ->
      exists c', _stream (self w') = Some c'
                 /\ opened c' = true /\ released c' = false
                 /\ reads c' = S (reads c)).
Proof.
  unfold start, VideoCapture_read, releases.
  destruct env as [| |c]; simpl; intros He.
  - split_and!; try done.
  - split_and!; try done.
  - destruct (opened c) eqn:Ho; simpl in *.
    + destruct (grabbed_frame _) eqn:Hf; simpl in *; [discriminate|].
      split_and!; try done.
      intros c0 [= <-] _ Hr. eexists. split; [reflexivity|]. simpl.
      by split_and!.
    + split_and!; try done. intros c0 [= <-]. congruence.
Qed.

(** ** Construction, again *)

(** X15. The error of [JetsonVideoStream.__init__] names the value
    that was refused, and the rotation is looked at first: a rotation
    that is no member of [FrameRotation] is reported whatever the camera
    mode is, a wrong camera mode only when the rotation is right. *)
Theorem X15_construction_reports_the_first_wrong_argument
    {Frame : Type} (cam : Z) (rotation camera_mode : pyval)
    (display_width display_height : Z) :
  let made := @JetsonVideoStream__init__ Frame cam rotation camera_mode
                display_width display_height in
  match rotation, camera_mode with
  | PyRotation _, PyMode _ => True
  | PyRotation _, _ =>
    made = inl (ValueError ("Invalid input for camera_mode: "
                            +:+ py_str camera_mode))
  | _, _ =>
    made = inl (ValueError ("Invalid input for rotation: "
                            +:+ py_str rotation))
  end.
Proof.
  destruct rotation as [r|m0|z|s|], camera_mode as [r0|m|z0|s0|];
    try done; try (by destruct r).
Qed.

(** X16. No two sensor modes resolve to the same capture settings,
    although the mode index alone does not tell them apart (the first
    mode of each sensor has index 0); and what a mode resolves to does
    not depend on the rotation. *)
Theorem X16_sensor_modes_have_their_own_settings
    (m1 m2 : JetsonCameraMode) :
  (resolve_mode (PyMode m1) = resolve_mode (PyMode m2) -> m1 = m2)
  /\ (forall cam r1 r2 dw dh p1 p2,
        resolve_profile cam (PyRotation r1) (PyMode m1) dw dh = inr p1 ->
        resolve_profile cam (PyRotation r2) (PyMode m1) dw dh = inr p2 ->
        (_mode p1, _capture_width p1, _capture_height p1, _framerate p1)
        = (_mode p2, _capture_width p2, _capture_height p2, _framerate p2))
  /\ (exists p1 p2,
        resolve_profile 0 (PyRotation ROTATE_NONE)
          (PyMode IMX219_3264x2468_21_0) 640 480 = inr p1
        /\ resolve_profile 0 (PyRotation ROTATE_NONE)
             (PyMode IMX477_4032x3040_30_0) 640 480 = inr p2
        /\ _mode p1 = _mode p2).
Proof.
  split; [|split].
  - destruct m1, m2; vm_compute; intros H; first [done | discriminate H].
  - intros cam r1 r2 dw dh p1 p2 H1 H2.
    destruct r1, r2, m1; vm_compute in H1, H2; by simplify_eq.
  - do 2 eexists. split; [reflexivity|]. split; reflexivity.
Qed.

(** ** The count of frames *)

Section CountFacts.
Context {Frame : Type}.
Implicit Types (w : world Frame) (a : action).

(** What the consumer does leaves the capture thread, the event, the
    device and the live count of frames read as they are, as long as no
    timer exists. *)
Lemma consumer_keeps_count a w w' :
  a <> Capture -> is_start_counting a = false -> timers w = [] ->
  step a w = Some w' ->
  _thread (self w') = _thread (self w)
  /\ _update_failure (self w') = _update_failure (self w)
  /\ frames_read (self w') = frames_read (self w)
  /\ device_reads w' = device_reads w
  /\ timers w' = []
  /\ (is_Some (_stream (self w)) -> is_Some (_stream (self w'))).
Proof.
  unfold device_reads. intros Hc Ha Hts Hstep.
  destruct a; try discriminate; try done; step_inv Hstep;
    try (match goal with
         | H : timers _ !! _ = Some _ |- _ => by rewrite Hts in H
         end);
    split_and!; try done; try (by rewrite Hts); by eauto.
Qed.

Lemma counted_inv_step n0 a w w' :
  is_start_counting a = false ->
  step a w = Some w' -> counted_inv n0 w -> counted_inv n0 w'.
Proof.
  unfold counted_inv.
  intros Ha Hstep ([c Hs] & Hlt & Hts & [pc Hpc] & [b Hb] & Hret & Heq).
  assert (a = Capture \/ a <> Capture) as [->|Hne]
    by (destruct a; first [by left | by right]).
  - unfold uncounted, failed_reads, device_reads in *.
    rewrite Hpc, Hb, Hs in *.
    unfold step in Hstep. rewrite Hpc in Hstep.
    destruct pc; simpl in Hstep; rewrite ?Hs, ?Hb in Hstep;
      simplify_eq; simpl; rewrite ?Hs, ?Hb; simpl.
    all: try destruct (_stopped (self w)); try destruct (grabbed_frame _);
      simpl; split_and!; try done; try (by eexists); try lia;
      destruct b; simpl in *; prune; try done; try lia.
  - destruct (consumer_keeps_count a w w' Hne Ha Hts Hstep)
      as (Ht' & Hf' & Hfr' & Hrd' & Hts' & Hs').
    unfold uncounted, failed_reads in *.
    rewrite Ht', Hf', Hfr', Hrd'.
    split_and!; try done; by eauto.
Qed.

End CountFacts.

(** X17. With no timer running, [frames_read] counts every frame the
    capture loop grabbed, once.  On a started stream on which
    [start_counting_fps] is never called, at every moment the frames
    counted, plus the one read and not yet counted, plus the one read
    that failed, are as many as the reads the loop has made; so once
    the loop has returned without a failure, [frames_read] is the number
    of its reads, the read of [start()] not included. *)
Theorem X17_frames_read_counts_every_grabbed_frame
    {Frame : Type} (c : VideoCapture Frame) (cmd : string) (backend : Z)
    (w1 : world Frame) (sched : list action) :
  start (OpenReturns c) (new_world cmd backend) = (None, w1) ->
  forallb (fun a => negb (is_start_counting a)) sched = true ->
  let w := exec sched w1 in
  frames_read (self w) + uncounted w + failed_reads w
    = Z.of_nat (device_reads w) - Z.of_nat (S (reads c))
  /\ (_thread (self w) = Some UReturned ->
      _update_failure (self w) = Some false ->
      frames_read (self w)
        = Z.of_nat (device_reads w) - Z.of_nat (S (reads c))).
Proof.
  intros Hstart Hs w.
  assert (counted_inv (reads c) w) as (_ & _ & _ & _ & _ & _ & Heq).
  { subst w.
    assert (counted_inv (reads c) w1) as H1.
    { unfold start in Hstart. simpl in Hstart.
      destruct (opened c); simpl in Hstart; [|discriminate].
      destruct (grabbed_frame _); [|discriminate].
      injection Hstart as <-.
      unfold counted_inv, uncounted, failed_reads, device_reads. simpl.
      split_and!; try done; try lia; by eexists. }
    clear Hstart. revert w1 H1.
    induction sched as [|a l IH]; intros w1 H1; [done|].
    simpl in Hs. apply andb_true_iff in Hs. destruct Hs as [Ha Hl].
    rewrite exec_cons. destruct (step a w1) as [w2|] eqn:E; simpl;
      [|by apply IH].
    apply IH; [done|].
    eapply counted_inv_step; [|exact E|exact H1].
    by apply negb_true_iff. }
  split; [exact Heq|].
  intros Ht Hf. unfold uncounted, failed_reads in Heq.
  rewrite Ht, Hf in Heq. lia.
Qed.

(** ** Instances *)

Lemma X4_witness :
  returned (trace read_thrice) = [14%nat; 13%nat; 12%nat]
  /\ exists idx : list nat,
       increasing idx
       /\ Forall (fun i => (reads five_frames < i
                            < device_reads read_thrice)%nat) idx
       /\ Forall2 (fun i f => grabbed_frame (frames five_frames i) = Some f)
            idx (reverse (returned (trace read_thrice))).
Proof.
  split; [vm_compute; reflexivity|].
  assert (start (OpenReturns five_frames) (new_world "cmd" CAP_GSTREAMER)
          = (None, running_stream)) as Hstart by (vm_compute; reflexivity).
  exact (X4_frames_are_delivered_in_capture_order five_frames _ _
           running_stream read_thrice Hstart
           (exec_reachable skipping running_stream)).
Defined.

Lemma X5_witness :
  device_reads stopping = 2%nat
  /\ device_reads wound_down = 3%nat
  /\ _thread (self wound_down) = Some UReturned.
Proof.
  split; [vm_compute; reflexivity|]. split; [vm_compute; reflexivity|].
  assert (_thread (self stopping) = Some URead) as Ht
    by (vm_compute; reflexivity).
  assert (_stopped (self stopping) = true) as Hs
    by (vm_compute; reflexivity).
  assert (togo (URead (Frame := nat)) <= captures last_turn)%nat as Hk
    by (vm_compute; lia).
  pose proof (X5_capture_loop_ends_within_one_read stopping URead last_turn
                Ht Hs Hk) as H.
  cbv zeta in H. destruct H as (_ & Hret & _). exact Hret.
Defined.

Lemma X6_witness :
  device_released mid_stream = false
  /\ device_released stopped_mid_stream = true
  /\ releases (trace stopped_mid_stream) = S (releases (trace mid_stream)).
Proof.
  split; [vm_compute; reflexivity|].
  assert (consumer mid_stream = Idle) as Hidle by (vm_compute; reflexivity).
  assert (_thread (self mid_stream) = Some URead) as Ht
    by (vm_compute; reflexivity).
  assert (exists c, _stream (self mid_stream) = Some c) as [c Hc]
    by (vm_compute; eexists; reflexivity).
  assert (forallb background last_turn = true) as Hb
    by (vm_compute; reflexivity).
  assert (togo (URead (Frame := nat)) <= captures last_turn)%nat as Hk
    by (vm_compute; lia).
  pose proof (X6_stop_completes_and_releases_once mid_stream URead c
                last_turn Hidle Ht Hc Hb Hk) as H.
  cbv zeta in H. destruct H as (_ & _ & _ & Hrel & _ & Hn).
  split; [exact Hrel|exact Hn].
Defined.

Lemma X7_witness :
  exists msg,
    trace (exec [CallStop; Consumer; Consumer; Consumer] idle_stream)
    = EvRaise (AttributeError msg) :: trace idle_stream.
Proof.
  exact (proj1 (X7_stop_without_a_capture_raises idle_stream
                  eq_refl eq_refl eq_refl)).
Defined.

Lemma X8_witness :
  exists msg,
    trace (exec [CallRead; Consumer] idle_stream)
    = EvRaise (AttributeError msg) :: trace idle_stream.
Proof.
  exact (proj1 (X8_read_before_start_raises idle_stream OpenRaises
                  eq_refl eq_refl)).
Defined.

Lemma X9_witness :
  releases (trace drained_and_stopped) = 1%nat
  /\ exists w1,
       step CallRead drained_and_stopped = Some w1
       /\ forall w2, reachable w1 w2 ->
            (consumer w2 = RFailure \/ consumer w2 = RLen)
            /\ trace w2 = trace drained_and_stopped
            /\ is_Some (step Consumer w2).
Proof.
  split; [vm_compute; reflexivity|].
  apply X9_read_after_stop_never_returns; vm_compute; reflexivity.
Defined.

Lemma X10_witness :
  exists w'', step (Tick 0%nat) (exec after_release counting_twice) = Some w''.
Proof.
  exact (proj2 (X10_replaced_timer_keeps_ticking idle_stream _
                  (exec_reachable after_release counting_twice))).
Defined.

Lemma X11_witness :
  exists w1,
    release_fps_stats counting_once = inr w1
    /\ release_fps_stats w1 = inr w1
    /\ forall w2, reachable w1 w2 -> step (Tick 0%nat) w2 = None.
Proof.
  apply X11_release_cancels_for_good; [reflexivity|simpl; lia].
Defined.

Lemma X12_witness :
  frames_displayed (self never_counting) = 1
  /\ frames_read (self never_counting) = 2
  /\ last_frames_read (self never_counting) = 0
  /\ last_frames_displayed (self never_counting) = 0.
Proof.
  split; [vm_compute; reflexivity|]. split; [vm_compute; reflexivity|].
  assert (forallb (fun a => negb (is_start_counting a)) uncounted_run = true)
    as Hs by (vm_compute; reflexivity).
  pose proof (X12_without_a_timer_the_snapshots_stay
                (OpenReturns five_frames) "cmd" CAP_GSTREAMER uncounted_run Hs)
    as H.
  cbv zeta in H. destruct H as (Hr & Hd & _). split; [exact Hr|exact Hd].
Defined.

Lemma X14_witness :
  exists c',
    _stream (self (snd (start (OpenReturns (feed (Frame := nat) []))
                          idle_stream))) = Some c'
    /\ opened c' = true /\ released c' = false
    /\ reads c' = S (reads (feed (Frame := nat) [])).
Proof.
  assert (fst (start (OpenReturns (feed (Frame := nat) [])) idle_stream)
          = Some (CameraFailedToStart "cmd" CAP_GSTREAMER
                    "Failed to grab frame")) as He
    by (vm_compute; reflexivity).
  pose proof (X14_failed_start_touches_only_the_stream _ _ _ He) as H.
  cbv zeta in H. destruct H as (_ & _ & _ & _ & Hc).
  exact (Hc (feed []) eq_refl eq_refl eq_refl).
Defined.

Lemma X17_witness :
  device_reads never_counting = 3%nat
  /\ frames_read (self never_counting) + uncounted never_counting
       + failed_reads never_counting
     = Z.of_nat (device_reads never_counting)
       - Z.of_nat (S (reads five_frames)).
Proof.
  split; [vm_compute; reflexivity|].
  assert (start (OpenReturns five_frames) (new_world "cmd" CAP_GSTREAMER)
          = (None, snd (start (OpenReturns five_frames)
                          (new_world "cmd" CAP_GSTREAMER)))) as Hstart
    by (vm_compute; reflexivity).
  assert (forallb (fun a => negb (is_start_counting a)) uncounted_run = true)
    as Hs by (vm_compute; reflexivity).
  pose proof (X17_frames_read_counts_every_grabbed_frame five_frames _ _ _
                uncounted_run Hstart Hs) as H.
  cbv zeta in H. exact (proj1 H).
Defined.
